(** * Ledger engine of the bookkeeping application

    A shallow embedding of the report-derivation code of the single-file
    React application: the balance accumulator and statement classifier
    of [Reports], the trial-balance summary and the single-account
    ledger of [GeneralLedger], the normal-balance derivation of
    [AccountModal], the manual-journal validation of [TransactionModal]
    and the compound entry generator of [handleSaveTransaction].

    JavaScript [number]s are modelled as exact rationals ([Qc]); a value
    that is [undefined] (or [NaN]) in the source is [None].  The module
    [B64] embeds the same arithmetic once more with the rounding of
    binary64, for the statements that relate amounts the code computes
    separately; on whole amounts within [2^53] the two coincide. *)

From Stdlib Require Import Ascii String QArith Qabs Qcanon Qcabs Qround Qpower Lqa Sorted.
From stdpp Require Import strings numbers gmap fin_maps list.

Open Scope string_scope.
Open Scope list_scope.
Open Scope Qc_scope.

(** ** Data model *)

Inductive TransactionType := debit | credit.

Inductive AccountCategory :=
  | asset | liability | equity | income
  | expense | cost_of_sales | other_income | other_expense.

Global Instance TransactionType_eq_dec : EqDecision TransactionType.
Proof. solve_decision. Defined.

Global Instance AccountCategory_eq_dec : EqDecision AccountCategory.
Proof. solve_decision. Defined.

Record Company := {
  co_id : string;
  co_name : string;
  fiscalYearStart : option string;
  fiscalYearEnd : option string
}.

Record Transaction := {
  tx_id : string;
  date : string;
  description : string;
  accountId : string;
  type : TransactionType;
  amount : Qc
}.

Record Account := {
  acc_id : string;
  acc_name : string;
  category : AccountCategory;
  normalBalance : TransactionType;
  beginningBalance : Qc
}.

(** ** Constants *)

Definition PPN_RATE : Qc := Q2Qc (11 # 100).
Definition PPH23_RATE : Qc := Q2Qc (2 # 100).

(** ** Helpers shared by the components *)

(** [accounts.find(acc => acc.id === k)] *)
Definition find_account (accounts : list Account) (k : string) : option Account :=
  List.find (λ acc, bool_decide (acc_id acc = k)) accounts.

(** [tx.type === account.normalBalance ? tx.amount : -tx.amount] *)
Definition amountChange (account : Account) (tx : Transaction) : Qc :=
  if decide (type tx = normalBalance account) then amount tx else - amount tx.

(** [x || 0] on a possibly missing number: [undefined] and [0] both give [0]. *)
Definition or_zero (x : option Qc) : Qc :=
  match x with
  | Some v => if decide (v = 0) then 0 else v
  | None => 0
  end.

(** [items.reduce((s, i) => s + i, 0)] on the exact figures;
    [B64.reduce_sum] is the same sum with the rounding of the source. *)
Definition reduce_sum (l : list Qc) : Qc := foldl Qcplus 0 l.

(** The mathematical sum of a list of amounts. *)
Definition sumQc (l : list Qc) : Qc := foldr Qcplus 0 l.

(** ** Reports: balance accumulator *)

(** [accounts.forEach(acc => accountBalances[acc.id] = 0)] *)
Definition initBalances (accounts : list Account) : gmap string Qc :=
  foldl (λ m acc, <[acc_id acc := 0]> m) ∅ accounts.

(** One iteration of [transactions.forEach]: a transaction whose account
    is not found returns early.  The key read by [+=] was initialised for
    every account id, so the [default] is never taken when the account is
    found (lemma [postTx_key_present]). *)
Definition postTx (accounts : list Account) (m : gmap string Qc)
    (tx : Transaction) : gmap string Qc :=
  match find_account accounts (accountId tx) with
  | None => m
  | Some account =>
      <[accountId tx := default 0 (m !! accountId tx) + amountChange account tx]> m
  end.

Definition accountBalances (accounts : list Account)
    (transactions : list Transaction) : gmap string Qc :=
  foldl (postTx accounts) (initBalances accounts) transactions.

(** ** Reports: statement classifier *)

(** An item [{ name, amount }] of a statement section. *)
Record ReportItem := { item_name : string; item_amount : Qc }.

(** [accounts.filter(p).map(a => ({ name: a.name,
    amount: accountBalances[a.id] || 0 }))] *)
Definition sectionItems (balances : gmap string Qc) (P : Account → Prop)
    `{∀ a, Decision (P a)} (accounts : list Account) : list ReportItem :=
  (λ a, {| item_name := acc_name a;
           item_amount := or_zero (balances !! acc_id a) |})
    <$> filter P accounts.

(** [items.reduce((s, i) => s + i.amount, 0)] *)
Definition sectionTotal (items : list ReportItem) : Qc :=
  reduce_sum (item_amount <$> items).

Definition isRevenue (a : Account) : Prop :=
  category a = income ∨ category a = other_income.

Definition isExpense (a : Account) : Prop :=
  category a = expense ∨ category a = cost_of_sales ∨ category a = other_expense.

Record Pnl := { pendapatan : list ReportItem; beban : list ReportItem }.

Record BalanceSheet := {
  aset : list ReportItem;
  liabilitas : list ReportItem;
  ekuitas : list ReportItem
}.

Record ReportsData := {
  pnl : Pnl;
  balanceSheet : BalanceSheet;
  labaBersih : Qc;
  totalAset : Qc;
  totalLiabilitas : Qc;
  totalEkuitas : Qc
}.

(** The conventional id of the retained-earnings account. *)
Definition labaDitahanId : string := "3-9999".

Definition computePnl (accounts : list Account)
    (balances : gmap string Qc) : Pnl :=
  {| pendapatan := sectionItems balances isRevenue accounts;
     beban := sectionItems balances isExpense accounts |}.

Definition computeLabaBersih (p : Pnl) : Qc :=
  sectionTotal (pendapatan p) - sectionTotal (beban p).

(** [if (labaDitahanAcc) accountBalances['3-9999'] =
    (accountBalances['3-9999'] || 0) + labaBersih] *)
Definition rollForward (accounts : list Account) (laba : Qc)
    (balances : gmap string Qc) : gmap string Qc :=
  match find_account accounts labaDitahanId with
  | Some _ => <[labaDitahanId := or_zero (balances !! labaDitahanId) + laba]> balances
  | None => balances
  end.

Definition computeBalanceSheet (accounts : list Account)
    (balances : gmap string Qc) : BalanceSheet :=
  {| aset := sectionItems balances (λ a, category a = asset) accounts;
     liabilitas := sectionItems balances (λ a, category a = liability) accounts;
     ekuitas := sectionItems balances (λ a, category a = equity) accounts |}.

(** The memoised computation of the [Reports] component. *)
Definition reports (transactions : list Transaction)
    (accounts : list Account) : ReportsData :=
  let accountBalances0 := accountBalances accounts transactions in
  let pnl := computePnl accounts accountBalances0 in
  let labaBersih := computeLabaBersih pnl in
  let accountBalances1 := rollForward accounts labaBersih accountBalances0 in
  let balanceSheet := computeBalanceSheet accounts accountBalances1 in
  {| pnl := pnl;
     balanceSheet := balanceSheet;
     labaBersih := labaBersih;
     totalAset := sectionTotal (aset balanceSheet);
     totalLiabilitas := sectionTotal (liabilitas balanceSheet);
     totalEkuitas := sectionTotal (ekuitas balanceSheet) |}.

(** ** GeneralLedger *)

Module LedgerSummaryData.
Record t := {
  accountId : string;
  accountName : string;
  beginningBalance : Qc;
  totalDebit : Qc;
  totalCredit : Qc;
  endingBalance : Qc
}.
End LedgerSummaryData.

(** A ledger line [{ ...tx, balance }]. *)
Record LedgerEntry := { entry_tx : Transaction; balance : Qc }.

(** What [ledgerData] holds: [null], the summary of all accounts, or the
    entries of one account. *)
Inductive LedgerData :=
  | LedgerNull
  | LedgerSummary (rows : list LedgerSummaryData.t)
  | LedgerEntries (entries : list LedgerEntry).

(** A template literal prints a missing string as [undefined]. *)
Definition template (s : option string) : string := default "undefined" s.

(** [a < b] on two [Date] objects compares their time values; a
    comparison with an invalid date ([NaN]) is false. *)
Definition date_lt (a b : option Z) : bool :=
  match a, b with
  | Some x, Some y => bool_decide (x < y)%Z
  | _, _ => false
  end.

Section GeneralLedger.

(** The built-in [new Date(s).getTime()]: the time value of the date
    string [s], [None] for an invalid date. *)
Variable Date_getTime : string → option Z.

(** State of the inner loop: [beginningBalance], [totalDebit],
    [totalCredit]. *)
Definition splitStep (startDate : option Z) (account : Account)
    (st : Qc * Qc * Qc) (tx : Transaction) : Qc * Qc * Qc :=
  let '(beginningBalance, totalDebit, totalCredit) := st in
  let txDate := Date_getTime (date tx +:+ "T00:00:00") in
  let amountChange := amountChange account tx in
  if date_lt txDate startDate then
    (beginningBalance + amountChange, totalDebit, totalCredit)
  else
    (beginningBalance,
     if decide (type tx = debit) then totalDebit + amount tx else totalDebit,
     if decide (type tx = credit) then totalCredit + amount tx else totalCredit).

(** [txDate < startDate] for a transaction. *)
Definition datedBefore (startDate : option Z) (tx : Transaction) : Prop :=
  date_lt (Date_getTime (date tx +:+ "T00:00:00")) startDate.

(** The body of [for (const account of accountsToProcess)]. *)
Definition summaryRow (company : Company) (transactions : list Transaction)
    (account : Account) : LedgerSummaryData.t :=
  let startDate := Date_getTime (template (fiscalYearStart company) +:+ "T00:00:00") in
  let allAccountTx := filter (λ tx, accountId tx = acc_id account) transactions in
  let '(beginningBalance, totalDebit, totalCredit) :=
    foldl (splitStep startDate account) (beginningBalance account, 0, 0) allAccountTx in
  let mutationChange :=
    if decide (normalBalance account = debit)
    then totalDebit - totalCredit else totalCredit - totalDebit in
  {| LedgerSummaryData.accountId := acc_id account;
     LedgerSummaryData.accountName := acc_name account;
     LedgerSummaryData.beginningBalance := beginningBalance;
     LedgerSummaryData.totalDebit := totalDebit;
     LedgerSummaryData.totalCredit := totalCredit;
     LedgerSummaryData.endingBalance := beginningBalance + mutationChange |}.

(** [acc.beginningBalance !== 0 ||
    transactions.some(tx => tx.accountId === acc.id)] *)
Definition toProcess (transactions : list Transaction) (acc : Account) : Prop :=
  beginningBalance acc ≠ 0 ∨ Exists (λ tx, accountId tx = acc_id acc) transactions.

Global Instance toProcess_dec transactions acc :
  Decision (toProcess transactions acc).
Proof. unfold toProcess. apply _. Defined.

Definition summaryData (company : Company) (transactions : list Transaction)
    (accounts : list Account) : list LedgerSummaryData.t :=
  summaryRow company transactions <$> filter (toProcess transactions) accounts.

(** The comparator [new Date(a.date).getTime() - new Date(b.date).getTime()];
    a [NaN] result counts as [0] for [sort]. *)
Definition compareDate (a b : Transaction) : Z :=
  match Date_getTime (date a), Date_getTime (date b) with
  | Some x, Some y => x - y
  | _, _ => 0
  end.

(** [Array.prototype.sort] is stable: an element goes before the first
    one that the comparator puts strictly after it.  When every date
    has a time value the comparator is a consistent order, and this is
    the result of every stable sort.  With a date that has no time
    value the comparator is inconsistent and the order of the result is
    left to the engine: for such lists only what does not depend on the
    order is stated. *)
Fixpoint insertByDate (tx : Transaction) (l : list Transaction) : list Transaction :=
  match l with
  | [] => [tx]
  | y :: l' =>
      if decide (compareDate tx y ≤ 0)%Z then tx :: y :: l'
      else y :: insertByDate tx l'
  end.

Definition sortByDate (l : list Transaction) : list Transaction :=
  foldr insertByDate [] l.

(** [filteredTx.map(tx => { runningBalance += amountChange; ... })] with
    the mutable [runningBalance] threaded through. *)
Fixpoint runningEntries (account : Account) (runningBalance : Qc)
    (txs : list Transaction) : list LedgerEntry :=
  match txs with
  | [] => []
  | tx :: rest =>
      let runningBalance' := runningBalance + amountChange account tx in
      {| entry_tx := tx; balance := runningBalance' |}
        :: runningEntries account runningBalance' rest
  end.

(** The single-account case: the account's transactions in date order,
    each with the running balance after it. *)
Definition accountLedger (transactions : list Transaction)
    (accounts : list Account) (selectedAccountId : string) : list LedgerEntry :=
  match find_account accounts selectedAccountId with
  | None => []
  | Some account =>
      let filteredTx :=
        sortByDate (filter (λ tx, accountId tx = selectedAccountId) transactions) in
      runningEntries account (beginningBalance account) filteredTx
  end.

Definition ledgerData (company : Company) (transactions : list Transaction)
    (accounts : list Account) (selectedAccountId : string) : LedgerData :=
  if decide (selectedAccountId = "") then LedgerNull
  else if decide (selectedAccountId = "all") then
    LedgerSummary (summaryData company transactions accounts)
  else LedgerEntries (accountLedger transactions accounts selectedAccountId).

End GeneralLedger.

Arguments splitStep : simpl never.

(** ** AccountModal: normal-balance derivation *)

Definition debitCategories : list AccountCategory :=
  [asset; cost_of_sales; expense; other_expense].

Definition setNormalBalance (nb : TransactionType) (prev : Account) : Account :=
  {| acc_id := acc_id prev;
     acc_name := acc_name prev;
     category := category prev;
     normalBalance := nb;
     beginningBalance := beginningBalance prev |}.

(** The effect that runs whenever [account.category] changes. *)
Definition categoryEffect (account : Account) : Account :=
  if decide (category account ∈ debitCategories)
  then setNormalBalance debit account
  else setNormalBalance credit account.

(** ** TransactionModal: submitting the form *)

(** A [Partial<Transaction>]: every field may be missing. *)
Record Entry := {
  e_id : option string;
  e_date : option string;
  e_description : option string;
  e_accountId : option string;
  e_type : option TransactionType;
  e_amount : option Qc
}.

(** The [options] argument of [onSave]. *)
Record Options := {
  kenaPpn : option bool;
  potongPph23 : option bool;
  baseAmount : option Qc;
  desc : option string;
  o_date : option string
}.

(** The state of the modal that [handleSubmit] reads.  [simpleAmount] is
    [None] when the amount field holds no number. *)
Record ModalState := {
  entries : list Entry;
  commonDesc : string;
  commonDate : string;
  simpleDesc : string;
  simpleAmount : option Qc;
  simpleDate : string;
  simpleAccountId : string;
  st_kenaPpn : bool;
  st_potongPph23 : bool
}.

(** [handleSubmit] either sets an error and returns, or calls [onSave]. *)
Inductive SubmitResult :=
  | SubmitError (msg : string)
  | SubmitSave (es : list Entry) (options : option Options).

(** [entries.filter(e => e.type === t).reduce((sum, e) => sum + (e.amount || 0), 0)] *)
Definition entriesTotal (t : TransactionType) (es : list Entry) : Qc :=
  reduce_sum ((λ e, or_zero (e_amount e)) <$> filter (λ e, e_type e = Some t) es).

(** The [0.01] of the guard as the exact hundredth; [B64.tolerance] is
    the binary64 number that the source compares with. *)
Definition tolerance : Qc := Q2Qc (1 # 100).

Definition unbalancedMsg : string :=
  "Total Debit dan Kredit harus seimbang dan tidak boleh nol!".

(** [{ ...e, description: commonDesc, date: commonDate }] *)
Definition completeEntry (commonDesc commonDate : string) (e : Entry) : Entry :=
  {| e_id := e_id e;
     e_date := Some commonDate;
     e_description := Some commonDesc;
     e_accountId := e_accountId e;
     e_type := e_type e;
     e_amount := e_amount e |}.

(** What the simplified form passes to [onSave]:
    [[{ accountId: simpleAccountId }]] and
    [{ kenaPpn, potongPph23, baseAmount, desc, date }]. *)
Definition simpleEntry (accountId : string) : list Entry :=
  [{| e_id := None; e_date := None; e_description := None;
      e_accountId := Some accountId; e_type := None; e_amount := None |}].

Definition simpleOptions (tax withholding : bool) (amount : Qc)
    (description date : string) : Options :=
  {| kenaPpn := Some tax; potongPph23 := Some withholding;
     baseAmount := Some amount; desc := Some description;
     o_date := Some date |}.

Definition handleSubmit (isJurnalUmum : bool) (st : ModalState) : SubmitResult :=
  if isJurnalUmum then
    let totalDebit := entriesTotal debit (entries st) in
    let totalCredit := entriesTotal credit (entries st) in
    if decide (tolerance < Qcabs (totalDebit - totalCredit) ∨ totalDebit = 0)
    then SubmitError unbalancedMsg
    else SubmitSave (completeEntry (commonDesc st) (commonDate st) <$> entries st) None
  else
    SubmitSave (simpleEntry (simpleAccountId st))
      (Some {| kenaPpn := Some (st_kenaPpn st);
               potongPph23 := Some (st_potongPph23 st);
               baseAmount := simpleAmount st;
               desc := Some (simpleDesc st);
               o_date := Some (simpleDate st) |}).

(** ** AccountingWorkspace: handleSaveTransaction *)

(** A line pushed on [transactionsToInsert]. *)
Definition line (date description accountId : string) (t : TransactionType)
    (amount : Qc) : Entry :=
  {| e_id := None;
     e_date := Some date;
     e_description := Some description;
     e_accountId := Some accountId;
     e_type := Some t;
     e_amount := Some amount |}.

(** Truthiness of an optional string, number and flag. *)
Definition truthy_str (s : option string) : option string :=
  match s with
  | Some v => if decide (v = "") then None else Some v
  | None => None
  end.

Definition truthy_num (x : option Qc) : option Qc :=
  match x with
  | Some v => if decide (v = 0) then None else Some v
  | None => None
  end.

Definition truthy_flag (b : option bool) : bool := default false b.

(** What [handleSaveTransaction] does before it talks to the database:
    it sets an error, closes the modal with nothing to insert, or hands
    [transactionsToInsert] to the insert. *)
Inductive SaveResult :=
  | SaveError (msg : string)
  | SaveNothing
  | SaveInsert (transactionsToInsert : list Entry).

Definition incompleteMsg : string := "Data form sederhana tidak lengkap.".
Definition notFoundMsg : string := "Akun utama tidak ditemukan.".

(** The lines of the simplified form for a complete entry on
    [primaryAccount]. *)
Definition compoundLines (primaryAccount : Account) (accountId : string)
    (kenaPpn potongPph23 : bool) (baseAmount : Qc) (desc date : string) : list Entry :=
  if decide (category primaryAccount = income) then
    let ppnAmount := if kenaPpn then baseAmount * PPN_RATE else 0 in
    [line date desc "1-1200" debit (baseAmount + ppnAmount);
     line date desc accountId credit baseAmount]
    ++ (if kenaPpn then [line date ("PPN atas " +:+ desc) "2-1250" credit ppnAmount] else [])
  else if decide (category primaryAccount = expense) then
    let pph23Amount := if potongPph23 then baseAmount * PPH23_RATE else 0 in
    [line date desc accountId debit baseAmount;
     line date ("Kas untuk " +:+ desc) "1-1130" credit (baseAmount - pph23Amount)]
    ++ (if potongPph23 then [line date ("PPh 23 atas " +:+ desc) "2-1260" credit pph23Amount] else [])
  else [].

Definition finishSave (transactionsToInsert : list Entry) : SaveResult :=
  match transactionsToInsert with
  | [] => SaveNothing
  | _ => SaveInsert transactionsToInsert
  end.

(** [entries.map(e => ({ date: e.date!, description: e.description!,
    accountId: e.accountId!, type: e.type!, amount: e.amount! }))] keeps
    every field but the id. *)
Definition stripId (e : Entry) : Entry :=
  {| e_id := None;
     e_date := e_date e;
     e_description := e_description e;
     e_accountId := e_accountId e;
     e_type := e_type e;
     e_amount := e_amount e |}.

Definition handleSaveTransaction (isJurnalUmum : bool) (accounts : list Account)
    (es : list Entry) (options : option Options) : SaveResult :=
  match options, isJurnalUmum with
  | Some o, false =>
      match truthy_num (baseAmount o), truthy_str (desc o), truthy_str (o_date o),
            truthy_str (head es ≫= e_accountId) with
      | Some baseAmount, Some desc, Some date, Some accountId =>
          match find_account accounts accountId with
          | None => SaveError notFoundMsg
          | Some primaryAccount =>
              finishSave
                (compoundLines primaryAccount accountId
                   (truthy_flag (kenaPpn o)) (truthy_flag (potongPph23 o))
                   baseAmount desc date)
          end
      | _, _, _, _ => SaveError incompleteMsg
      end
  | _, _ => finishSave (stripId <$> es)
  end.

(** The modal and the workspace share [isJurnalUmum]: [handleSubmit]
    passes what it saves to [handleSaveTransaction]. *)
Definition saveFromModal (isJurnalUmum : bool) (accounts : list Account)
    (st : ModalState) : SaveResult :=
  match handleSubmit isJurnalUmum st with
  | SubmitError msg => SaveError msg
  | SubmitSave es options => handleSaveTransaction isJurnalUmum accounts es options
  end.

(** The lines a save hands to the insert; none on an error. *)
Definition emittedLines (r : SaveResult) : list Entry :=
  match r with
  | SaveInsert l => l
  | _ => []
  end.

(** ** Dashboard *)

Record DashboardData := {
  totalPendapatan : Qc;
  totalBeban : Qc;
  labaRugi : Qc;
  kas : Qc
}.

(** One iteration of the [forEach] of the dashboard totals; the state is
    [totalPendapatan], [totalBeban], [kas]. *)
Definition dashboardStep (accounts : list Account) (st : Qc * Qc * Qc)
    (tx : Transaction) : Qc * Qc * Qc :=
  let '(totalPendapatan, totalBeban, kas) := st in
  match find_account accounts (accountId tx) with
  | None => st
  | Some account =>
      let amount := amountChange account tx in
      (if decide (category account = income)
       then totalPendapatan + amount else totalPendapatan,
       if decide (category account = expense)
       then totalBeban - amount else totalBeban,
       if decide (acc_id account = "1-1130") then kas + amount else kas)
  end.

Definition dashboard (transactions : list Transaction)
    (accounts : list Account) : DashboardData :=
  let '(totalPendapatan, totalBeban, kas) :=
    foldl (dashboardStep accounts) (0, 0, 0) transactions in
  {| totalPendapatan := totalPendapatan;
     totalBeban := totalBeban;
     labaRugi := totalPendapatan - totalBeban;
     kas := kas |}.

(** ** AccountManagement and AccountModal *)

(** [transactions.some(tx => tx.accountId === accountId)] *)
Definition isAccountInUse (transactions : list Transaction) (k : string) : Prop :=
  Exists (λ tx, accountId tx = k) transactions.

Global Instance isAccountInUse_dec transactions k :
  Decision (isAccountInUse transactions k).
Proof. unfold isAccountInUse. apply _. Defined.

Inductive AccountSubmit :=
  | AccountError (msg : string)
  | AccountSave (account : Account).

Definition emptyFieldMsg : string := "ID Akun dan Nama Akun tidak boleh kosong.".
Definition duplicateIdMsg : string := "ID Akun sudah ada. Harap gunakan ID yang unik.".

(** [handleSubmit] of the account modal on its [account] state. *)
Definition accountHandleSubmit (existingAccount : option Account)
    (allAccounts : list Account) (account : Account) : AccountSubmit :=
  if decide (acc_id account = "" ∨ acc_name account = "") then
    AccountError emptyFieldMsg
  else
    match existingAccount with
    | None =>
        if decide (Exists (λ acc, acc_id acc = acc_id account) allAccounts)
        then AccountError duplicateIdMsg
        else AccountSave account
    | Some _ => AccountSave account
    end.

(** ** TransactionModal: the simplified form and the entry rows *)

Inductive TransactionNature := nature_income | nature_expense.

(** The effect on [simpleAccountId]: the nature of the chosen account,
    [None] for [null]. *)
Definition transactionNature (allAccounts : list Account)
    (simpleAccountId : string) : option TransactionNature :=
  match find_account allAccounts simpleAccountId with
  | Some account =>
      if decide (category account = income) then Some nature_income
      else if decide (category account = expense) then Some nature_expense
      else None
  | None => None
  end.

(** The accounts the selector of the simplified form offers. *)
Definition simpleFormAccounts (allAccounts : list Account) : list Account :=
  filter (λ a, category a = income ∨ category a = expense) allAccounts.

(** The empty row [{}]. *)
Definition emptyEntry : Entry :=
  {| e_id := None; e_date := None; e_description := None;
     e_accountId := None; e_type := None; e_amount := None |}.

(** [setEntries([...entries, {}])] *)
Definition addEntry (entries : list Entry) : list Entry := entries ++ [emptyEntry].

(** [entries.filter((_, i) => i !== index)] *)
Definition removeEntry (index : nat) (entries : list Entry) : list Entry :=
  snd <$> filter (λ p, p.1 ≠ index) (imap pair entries).

(** ** AccountingWorkspace: opening the edit modal *)




(** ** TransactionTable *)

(** [keyof Transaction] *)
Inductive SortKey :=
  | key_id | key_date | key_description | key_accountId | key_type | key_amount.

Inductive SortDirection := dir_asc | dir_desc.

Global Instance SortKey_eq_dec : EqDecision SortKey.
Proof. solve_decision. Defined.

Global Instance SortDirection_eq_dec : EqDecision SortDirection.
Proof. solve_decision. Defined.

Record SortConfig := { key : SortKey; direction : SortDirection }.

(** The initial [sortConfig]: newest first. *)
Definition initialSortConfig : option SortConfig :=
  Some {| key := key_date; direction := dir_desc |}.

Definition typeName (t : TransactionType) : string :=
  match t with debit => "debit" | credit => "credit" end.

(** How [a[key]] and [b[key]] compare under [<] and [>]: numbers by
    value, strings character by character (the characters are those of
    the string as stored here, which orders ASCII text, ISO dates among
    it, as JavaScript does). *)
Definition fieldCompare (k : SortKey) (a b : Transaction) : comparison :=
  match k with
  | key_id => String.compare (tx_id a) (tx_id b)
  | key_date => String.compare (date a) (date b)
  | key_description => String.compare (description a) (description b)
  | key_accountId => String.compare (accountId a) (accountId b)
  | key_type => String.compare (typeName (type a)) (typeName (type b))
  | key_amount => Qccompare (amount a) (amount b)
  end.

(** The comparator given to [sort]. *)
Definition tableCompare (cfg : SortConfig) (a b : Transaction) : Z :=
  match fieldCompare (key cfg) a b with
  | Lt => if decide (direction cfg = dir_asc) then -1 else 1
  | Gt => if decide (direction cfg = dir_asc) then 1 else -1
  | Eq => 0
  end.

(** [Array.prototype.sort] with a comparator, as a stable insertion
    sort. *)
Fixpoint insertWith {A} (cmp : A → A → Z) (x : A) (l : list A) : list A :=
  match l with
  | [] => [x]
  | y :: l' =>
      if decide (cmp x y ≤ 0)%Z then x :: y :: l'
      else y :: insertWith cmp x l'
  end.

Definition sortWith {A} (cmp : A → A → Z) (l : list A) : list A :=
  foldr (insertWith cmp) [] l.

Definition sortedTransactions (sortConfig : option SortConfig)
    (transactions : list Transaction) : list Transaction :=
  match sortConfig with
  | Some cfg => sortWith (tableCompare cfg) transactions
  | None => transactions
  end.

(** [setSortConfig(prev => ({ key, direction: prev && prev.key === key
    && prev.direction === 'asc' ? 'desc' : 'asc' }))] *)
Definition requestSort (k : SortKey) (prev : option SortConfig) : option SortConfig :=
  Some {| key := k;
          direction :=
            match prev with
            | Some p =>
                if decide (key p = k ∧ direction p = dir_asc)
                then dir_desc else dir_asc
            | None => dir_asc
            end |}.

(** A string of characters below 128.  On such strings the order of the
    characters stored here is the order of the UTF-16 code units that
    [<] and [>] compare. *)
Definition asciiText (s : string) : Prop :=
  Forall (λ c, (nat_of_ascii c < 128)%nat) (list_ascii_of_string s).

Definition asciiFields (tx : Transaction) : Prop :=
  asciiText (tx_id tx) ∧ asciiText (date tx)
  ∧ asciiText (description tx) ∧ asciiText (accountId tx).

Global Instance asciiFields_dec tx : Decision (asciiFields tx).
Proof. unfold asciiFields, asciiText. apply _. Defined.

(** [a[key] === b[key]] *)
Definition fieldEq (k : SortKey) (a b : Transaction) : Prop :=
  match k with
  | key_id => tx_id a = tx_id b
  | key_date => date a = date b
  | key_description => description a = description b
  | key_accountId => accountId a = accountId b
  | key_type => type a = type b
  | key_amount => amount a = amount b
  end.

Global Instance fieldEq_dec k a b : Decision (fieldEq k a b).
Proof. destruct k; cbn; apply _. Defined.

(** [a[key] <= b[key]]: strings in the lexicographic order of their
    characters (so ['credit'] before ['debit']), numbers by value. *)
Definition fieldLe (k : SortKey) (a b : Transaction) : Prop :=
  match k with
  | key_id => (tx_id a ?= tx_id b)%string ≠ Gt
  | key_date => (date a ?= date b)%string ≠ Gt
  | key_description => (description a ?= description b)%string ≠ Gt
  | key_accountId => (accountId a ?= accountId b)%string ≠ Gt
  | key_type => type a = type b ∨ (type a = credit ∧ type b = debit)
  | key_amount => amount a <= amount b
  end.

(** ** Dashboard: the monthly chart *)

(** A bucket [{ month, pendapatan, beban }] of [monthlyData]. *)
Record MonthBucket := {
  m_month : string;
  m_pendapatan : Qc;
  m_beban : Qc
}.

Section Chart.

(** The built-in [new Date(s).toLocaleString('id-ID', { month: 'short',
    year: 'numeric' })].  Its values are month labels (or the label of
    an invalid date), none of which names a property that a JavaScript
    object inherits; the object [monthlyData] is therefore a plain map. *)
Variable monthLabel : string → string.

(** One iteration of the [forEach] that fills the object [monthlyData]:
    the bucket of the month is created first, also for a transaction
    whose account is then not found. *)
Definition chartStep (accounts : list Account) (monthlyData : gmap string MonthBucket)
    (tx : Transaction) : gmap string MonthBucket :=
  let month := monthLabel (date tx) in
  let monthlyData1 :=
    match monthlyData !! month with
    | Some _ => monthlyData
    | None =>
        <[month := {| m_month := month; m_pendapatan := 0; m_beban := 0 |}]> monthlyData
    end in
  match find_account accounts (accountId tx) with
  | None => monthlyData1
  | Some account =>
      if decide (category account = income) then
        alter (λ b, {| m_month := m_month b;
                       m_pendapatan := m_pendapatan b + amount tx;
                       m_beban := m_beban b |}) month monthlyData1
      else if decide (category account = expense) then
        alter (λ b, {| m_month := m_month b;
                       m_pendapatan := m_pendapatan b;
                       m_beban := m_beban b + amount tx |}) month monthlyData1
      else monthlyData1
  end.

Definition monthlyData (transactions : list Transaction)
    (accounts : list Account) : gmap string MonthBucket :=
  foldl (chartStep accounts) ∅ transactions.

End Chart.


(** ** Auxiliary notions for the statements *)

(** What a transaction adds to the balances of the accounts selected by
    [P]: its sign-adjusted amount if its account is found and selected. *)
Definition contribution (accounts : list Account) (P : Account → Prop)
    `{∀ a, Decision (P a)} (tx : Transaction) : Qc :=
  match find_account accounts (accountId tx) with
  | Some a => if decide (P a) then amountChange a tx else 0
  | None => 0
  end.

(** The accumulated balance of an account: the sum of the sign-adjusted
    amounts of the transactions that reference its id. *)
Definition accumulated (txs : list Transaction) (a : Account) : Qc :=
  sumQc (amountChange a <$> filter (λ tx, accountId tx = acc_id a) txs).

(** An account saved through the account modal has the normal balance
    of its category. *)
Definition derivedNormalBalance (a : Account) : Prop :=
  normalBalance a = normalBalance (categoryEffect a).


(** * The same computations in binary64

    The figures above are exact rationals.  The source computes in
    binary64: the result of every [+], [-] and [*] is the number with a
    53-bit significand nearest to the exact result, ties going to the
    even significand.  A sum taken in another order or grouping, or
    [a - a*r + a*r], is therefore not always what exact arithmetic
    gives.  This part embeds the code once more with that rounding, for
    the statements that relate amounts the code computes separately.

    A finite binary64 number is the rational it denotes.  Results of
    magnitude [2^1024] and more ([Infinity] in the source), [NaN] and
    the sign of zero have no counterpart here; every statement below
    bounds its amounts well inside the range. *)

Module B64.

Definition pow2 (k : Z) : Q := (2 ^ k)%Q.

(** For [q > 0], the [k] with [2^k <= q < 2^(k+1)]. *)
Definition floor_log2 (q : Q) : Z :=
  let k := (Z.log2 (Qnum q) - Z.log2 (Zpos (Qden q)))%Z in
  if Qle_bool (pow2 k) q then k else (k - 1)%Z.

(** The nearest integer, a tie going to the even one. *)
Definition rnd_even (x : Q) : Z :=
  let f := Qfloor x in
  match (x - inject_Z f ?= 1 # 2)%Q with
  | Lt => f
  | Gt => (f + 1)%Z
  | Eq => if Z.even f then f else (f + 1)%Z
  end.

(** The exponent of the last bit of the significand: 52 below the
    leading bit, and not below that of the subnormal numbers. *)
Definition ulp_exp (q : Q) : Z := Z.max (floor_log2 (Qabs q) - 52) (-1074).

(** Rounding to nearest, ties to even. *)
Definition round64 (q : Qc) : Qc :=
  if decide (q = 0) then 0
  else let e := ulp_exp q in
       Q2Qc (inject_Z (rnd_even (q / pow2 e)) * pow2 e).

(** [x + y], [x - y] and [x * y] of the source. *)
Definition add (x y : Qc) : Qc := round64 (x + y).
Definition sub (x y : Qc) : Qc := round64 (x - y).
Definition mul (x y : Qc) : Qc := round64 (x * y).

(** A decimal literal denotes the binary64 number nearest to it:
    [const PPN_RATE = 0.11], [const PPH23_RATE = 0.02], and the [0.01]
    of the manual form. *)
Definition PPN_RATE : Qc := round64 (Q2Qc (11 # 100)).
Definition PPH23_RATE : Qc := round64 (Q2Qc (2 # 100)).
Definition tolerance : Qc := round64 (Q2Qc (1 # 100)).

(** [items.reduce((s, i) => s + i, 0)] *)
Definition reduce_sum (l : list Qc) : Qc := foldl add 0 l.

(** *** Reports *)

Definition postTx (accounts : list Account) (m : gmap string Qc)
    (tx : Transaction) : gmap string Qc :=
  match find_account accounts (accountId tx) with
  | None => m
  | Some account =>
      <[accountId tx := add (default 0 (m !! accountId tx)) (amountChange account tx)]> m
  end.

Definition accountBalances (accounts : list Account)
    (transactions : list Transaction) : gmap string Qc :=
  foldl (postTx accounts) (initBalances accounts) transactions.

Definition sectionTotal (items : list ReportItem) : Qc :=
  reduce_sum (item_amount <$> items).

Definition computeLabaBersih (p : Pnl) : Qc :=
  sub (sectionTotal (pendapatan p)) (sectionTotal (beban p)).

Definition rollForward (accounts : list Account) (laba : Qc)
    (balances : gmap string Qc) : gmap string Qc :=
  match find_account accounts labaDitahanId with
  | Some _ => <[labaDitahanId := add (or_zero (balances !! labaDitahanId)) laba]> balances
  | None => balances
  end.

Definition reports (transactions : list Transaction)
    (accounts : list Account) : ReportsData :=
  let accountBalances0 := accountBalances accounts transactions in
  let pnl := computePnl accounts accountBalances0 in
  let labaBersih := computeLabaBersih pnl in
  let accountBalances1 := rollForward accounts labaBersih accountBalances0 in
  let balanceSheet := computeBalanceSheet accounts accountBalances1 in
  {| pnl := pnl;
     balanceSheet := balanceSheet;
     labaBersih := labaBersih;
     totalAset := sectionTotal (aset balanceSheet);
     totalLiabilitas := sectionTotal (liabilitas balanceSheet);
     totalEkuitas := sectionTotal (ekuitas balanceSheet) |}.

(** *** GeneralLedger *)

Section GeneralLedger.

Variable Date_getTime : string → option Z.

Definition splitStep (startDate : option Z) (account : Account)
    (st : Qc * Qc * Qc) (tx : Transaction) : Qc * Qc * Qc :=
  let '(beginningBalance, totalDebit, totalCredit) := st in
  let txDate := Date_getTime (date tx +:+ "T00:00:00") in
  let amountChange := amountChange account tx in
  if date_lt txDate startDate then
    (add beginningBalance amountChange, totalDebit, totalCredit)
  else
    (beginningBalance,
     if decide (type tx = debit) then add totalDebit (amount tx) else totalDebit,
     if decide (type tx = credit) then add totalCredit (amount tx) else totalCredit).

Definition summaryRow (company : Company) (transactions : list Transaction)
    (account : Account) : LedgerSummaryData.t :=
  let startDate := Date_getTime (template (fiscalYearStart company) +:+ "T00:00:00") in
  let allAccountTx := filter (λ tx, accountId tx = acc_id account) transactions in
  let '(beginningBalance, totalDebit, totalCredit) :=
    foldl (splitStep startDate account) (beginningBalance account, 0, 0) allAccountTx in
  let mutationChange :=
    if decide (normalBalance account = debit)
    then sub totalDebit totalCredit else sub totalCredit totalDebit in
  {| LedgerSummaryData.accountId := acc_id account;
     LedgerSummaryData.accountName := acc_name account;
     LedgerSummaryData.beginningBalance := beginningBalance;
     LedgerSummaryData.totalDebit := totalDebit;
     LedgerSummaryData.totalCredit := totalCredit;
     LedgerSummaryData.endingBalance := add beginningBalance mutationChange |}.

Definition summaryData (company : Company) (transactions : list Transaction)
    (accounts : list Account) : list LedgerSummaryData.t :=
  summaryRow company transactions <$> filter (toProcess transactions) accounts.

Fixpoint runningEntries (account : Account) (runningBalance : Qc)
    (txs : list Transaction) : list LedgerEntry :=
  match txs with
  | [] => []
  | tx :: rest =>
      let runningBalance' := add runningBalance (amountChange account tx) in
      {| entry_tx := tx; balance := runningBalance' |}
        :: runningEntries account runningBalance' rest
  end.

Definition accountLedger (transactions : list Transaction)
    (accounts : list Account) (selectedAccountId : string) : list LedgerEntry :=
  match find_account accounts selectedAccountId with
  | None => []
  | Some account =>
      let filteredTx :=
        sortByDate Date_getTime
          (filter (λ tx, accountId tx = selectedAccountId) transactions) in
      runningEntries account (beginningBalance account) filteredTx
  end.

Definition ledgerData (company : Company) (transactions : list Transaction)
    (accounts : list Account) (selectedAccountId : string) : LedgerData :=
  if decide (selectedAccountId = "") then LedgerNull
  else if decide (selectedAccountId = "all") then
    LedgerSummary (summaryData company transactions accounts)
  else LedgerEntries (accountLedger transactions accounts selectedAccountId).

End GeneralLedger.

(** *** TransactionModal and handleSaveTransaction *)

Definition entriesTotal (t : TransactionType) (es : list Entry) : Qc :=
  reduce_sum ((λ e, or_zero (e_amount e)) <$> filter (λ e, e_type e = Some t) es).

Definition handleSubmit (isJurnalUmum : bool) (st : ModalState) : SubmitResult :=
  if isJurnalUmum then
    let totalDebit := entriesTotal debit (entries st) in
    let totalCredit := entriesTotal credit (entries st) in
    if decide (tolerance < Qcabs (sub totalDebit totalCredit) ∨ totalDebit = 0)
    then SubmitError unbalancedMsg
    else SubmitSave (completeEntry (commonDesc st) (commonDate st) <$> entries st) None
  else
    SubmitSave (simpleEntry (simpleAccountId st))
      (Some {| kenaPpn := Some (st_kenaPpn st);
               potongPph23 := Some (st_potongPph23 st);
               baseAmount := simpleAmount st;
               desc := Some (simpleDesc st);
               o_date := Some (simpleDate st) |}).

Definition compoundLines (primaryAccount : Account) (accountId : string)
    (kenaPpn potongPph23 : bool) (baseAmount : Qc) (desc date : string) : list Entry :=
  if decide (category primaryAccount = income) then
    let ppnAmount := if kenaPpn then mul baseAmount PPN_RATE else 0 in
    [line date desc "1-1200" debit (add baseAmount ppnAmount);
     line date desc accountId credit baseAmount]
    ++ (if kenaPpn then [line date ("PPN atas " +:+ desc) "2-1250" credit ppnAmount] else [])
  else if decide (category primaryAccount = expense) then
    let pph23Amount := if potongPph23 then mul baseAmount PPH23_RATE else 0 in
    [line date desc accountId debit baseAmount;
     line date ("Kas untuk " +:+ desc) "1-1130" credit (sub baseAmount pph23Amount)]
    ++ (if potongPph23 then [line date ("PPh 23 atas " +:+ desc) "2-1260" credit pph23Amount] else [])
  else [].

Definition handleSaveTransaction (isJurnalUmum : bool) (accounts : list Account)
    (es : list Entry) (options : option Options) : SaveResult :=
  match options, isJurnalUmum with
  | Some o, false =>
      match truthy_num (baseAmount o), truthy_str (desc o), truthy_str (o_date o),
            truthy_str (head es ≫= e_accountId) with
      | Some baseAmount, Some desc, Some date, Some accountId =>
          match find_account accounts accountId with
          | None => SaveError notFoundMsg
          | Some primaryAccount =>
              finishSave
                (compoundLines primaryAccount accountId
                   (truthy_flag (kenaPpn o)) (truthy_flag (potongPph23 o))
                   baseAmount desc date)
          end
      | _, _, _, _ => SaveError incompleteMsg
      end
  | _, _ => finishSave (stripId <$> es)
  end.

(** *** Dashboard *)

Definition dashboardStep (accounts : list Account) (st : Qc * Qc * Qc)
    (tx : Transaction) : Qc * Qc * Qc :=
  let '(totalPendapatan, totalBeban, kas) := st in
  match find_account accounts (accountId tx) with
  | None => st
  | Some account =>
      let amount := amountChange account tx in
      (if decide (category account = income)
       then add totalPendapatan amount else totalPendapatan,
       if decide (category account = expense)
       then sub totalBeban amount else totalBeban,
       if decide (acc_id account = "1-1130") then add kas amount else kas)
  end.

Definition dashboard (transactions : list Transaction)
    (accounts : list Account) : DashboardData :=
  let '(totalPendapatan, totalBeban, kas) :=
    foldl (dashboardStep accounts) (0, 0, 0) transactions in
  {| totalPendapatan := totalPendapatan;
     totalBeban := totalBeban;
     labaRugi := sub totalPendapatan totalBeban;
     kas := kas |}.

End B64.

Arguments B64.splitStep : simpl never.

(** A whole number: a rational with denominator one. *)
Definition whole (q : Qc) : Prop := Qden q = 1%positive.

Global Instance whole_dec q : Decision (whole q).
Proof. unfold whole. apply _. Defined.

(** The largest magnitude up to which every whole number is a binary64
    number: [2^53]. *)
Definition maxSafe : Qc := Qc_of_Z (2 ^ 53).

(** The sum of the absolute values of whole numbers, as an integer. *)
Definition magnitudeSum (l : list Qc) : Z :=
  foldr (λ (q : Qc) s, (Z.abs (Qnum q) + s)%Z) 0%Z l.

(** ** Sample data

    The cash account and the income account of the worked examples, an
    expense account, the retained-earnings account, and a time value for
    ISO dates. *)

Definition ex_kas : Account :=
  {| acc_id := "1-1130"; acc_name := "Kas"; category := asset;
     normalBalance := debit; beginningBalance := Qc_of_Z 1000000 |}.

Definition ex_pendapatan : Account :=
  {| acc_id := "4-4000"; acc_name := "Pendapatan Jasa"; category := income;
     normalBalance := credit; beginningBalance := 0 |}.

Definition ex_beban : Account :=
  {| acc_id := "6-1000"; acc_name := "Beban Sewa"; category := expense;
     normalBalance := debit; beginningBalance := 0 |}.

Definition ex_labaDitahan : Account :=
  {| acc_id := "3-9999"; acc_name := "Laba Ditahan"; category := equity;
     normalBalance := credit; beginningBalance := 0 |}.

Definition ex_accounts : list Account :=
  [ex_kas; ex_labaDitahan; ex_pendapatan; ex_beban].

Definition ex_tx (i d k : string) (t : TransactionType) (a : Z) : Transaction :=
  {| tx_id := i; date := d; description := "contoh"; accountId := k;
     type := t; amount := Qc_of_Z a |}.

Definition ex_transactions : list Transaction :=
  [ex_tx "t1" "2025-01-10" "1-1130" debit 500000;
   ex_tx "t2" "2024-12-20" "4-4000" credit 300000;
   ex_tx "t3" "2025-01-15" "1-1130" credit 200000;
   ex_tx "t4" "2025-02-01" "4-4000" credit 500000;
   ex_tx "t5" "2025-02-03" "9-0000" debit 42;
   ex_tx "t6" "2025-03-01" "6-1000" debit 300000].

(** A directory without the retained-earnings account: cash and paid-in
    capital, with the owner's contribution. *)
Definition ex_modal : Account :=
  {| acc_id := "3-1000"; acc_name := "Modal Disetor"; category := equity;
     normalBalance := credit; beginningBalance := 0 |}.

Definition ex_accounts_plain : list Account := [ex_kas; ex_modal].

Definition ex_transactions_plain : list Transaction :=
  [ex_tx "p1" "2025-01-05" "1-1130" debit 2000000;
   ex_tx "p2" "2025-01-05" "3-1000" credit 2000000].

(** A journal entry typed into the multi-line form. *)
Definition ex_entry (k : string) (t : TransactionType) (a : Z) : Entry :=
  {| e_id := None; e_date := None; e_description := None;
     e_accountId := Some k; e_type := Some t; e_amount := Some (Qc_of_Z a) |}.

Definition ex_state (es : list Entry) : ModalState :=
  {| entries := es; commonDesc := "Setoran modal"; commonDate := "2025-01-05";
     simpleDesc := ""; simpleAmount := None; simpleDate := "2025-01-05";
     simpleAccountId := ""; st_kenaPpn := false; st_potongPph23 := false |}.

Definition ex_company : Company :=
  {| co_id := "c1"; co_name := "Contoh"; fiscalYearStart := Some "2025-01-01";
     fiscalYearEnd := Some "2025-12-31" |}.

Definition digit (c : ascii) : option Z :=
  let n := Z.of_nat (nat_of_ascii c) in
  if decide (48 ≤ n ≤ 57)%Z then Some (n - 48)%Z else None.

Fixpoint digits (acc : Z) (l : list ascii) : option Z :=
  match l with
  | [] => Some acc
  | c :: l' => d ← digit c; digits (10 * acc + d) l'
  end.

(** A time value for strings that start with [YYYY-MM-DD]: days on a
    calendar of 31-day months, which orders dates as the real one does. *)
Definition ex_getTime (s : string) : option Z :=
  match list_ascii_of_string s with
  | y1 :: y2 :: y3 :: y4 :: "-"%char :: m1 :: m2 :: "-"%char :: d1 :: d2 :: _ =>
      y ← digits 0 [y1; y2; y3; y4];
      m ← digits 0 [m1; m2];
      d ← digits 0 [d1; d2];
      Some ((y * 12 + m) * 31 + d)%Z
  | _ => None
  end.

(** Books in balance: a sale of 800,000 for cash and rent of 300,000
    paid in cash. *)
Definition ex_transactions_balanced : list Transaction :=
  [ex_tx "b1" "2025-01-10" "1-1130" debit 800000;
   ex_tx "b2" "2025-01-10" "4-4000" credit 800000;
   ex_tx "b3" "2025-02-01" "6-1000" debit 300000;
   ex_tx "b4" "2025-02-01" "1-1130" credit 300000].




(** A petty-cash account and three movements of 0.1, 0.3 and 0.2, each
    the binary64 number nearest to the decimal. *)
Definition ex_kasKecil : Account :=
  {| acc_id := "1-1140"; acc_name := "Kas Kecil"; category := asset;
     normalBalance := debit; beginningBalance := 0 |}.

Definition ex_tenth (n : Z) : Qc := B64.round64 (Q2Qc (n # 10)).

Definition ex_transactions_tenths : list Transaction :=
  [{| tx_id := "f1"; date := "2025-01-05"; description := "Setoran";
      accountId := "1-1140"; type := debit; amount := ex_tenth 1 |};
   {| tx_id := "f2"; date := "2025-01-06"; description := "Materai";
      accountId := "1-1140"; type := credit; amount := ex_tenth 3 |};
   {| tx_id := "f3"; date := "2025-01-07"; description := "Setoran";
      accountId := "1-1140"; type := debit; amount := ex_tenth 2 |}].

(** * Properties *)

(** ** Sums *)

Lemma foldl_Qcplus_start (l : list Qc) (b : Qc) :
  foldl Qcplus b l = b + sumQc l.
Proof.
  revert b. induction l as [|x l IH]; intros b; simpl.
  - by rewrite Qcplus_0_r.
  - rewrite IH. unfold sumQc. simpl. ring.
Qed.

Lemma reduce_sum_sumQc (l : list Qc) : reduce_sum l = sumQc l.
Proof. unfold reduce_sum. rewrite foldl_Qcplus_start. ring. Qed.

Lemma sumQc_app (l1 l2 : list Qc) : sumQc (l1 ++ l2) = sumQc l1 + sumQc l2.
Proof.
  unfold sumQc. induction l1 as [|x l1 IH]; simpl.
  - ring.
  - rewrite IH. ring.
Qed.

Lemma sumQc_Permutation (l1 l2 : list Qc) : l1 ≡ₚ l2 → sumQc l1 = sumQc l2.
Proof.
  unfold sumQc. induction 1; simpl; try congruence; ring.
Qed.

Lemma sumQc_nil : sumQc [] = 0.
Proof. reflexivity. Qed.

Lemma sumQc_cons (x : Qc) (l : list Qc) : sumQc (x :: l) = x + sumQc l.
Proof. reflexivity. Qed.

Ltac sum_norm := rewrite ?fmap_cons, ?fmap_nil, ?sumQc_cons, ?sumQc_nil.

Lemma or_zero_Some (v : Qc) : or_zero (Some v) = v.
Proof. simpl. by case_decide. Qed.

(** ** Account lookup *)

Lemma find_account_Some accounts k a :
  find_account accounts k = Some a → a ∈ accounts ∧ acc_id a = k.
Proof.
  unfold find_account. intros H. apply find_some in H as [Hin Hb].
  apply bool_decide_eq_true in Hb. by rewrite list_elem_of_In.
Qed.

Lemma find_account_None accounts k :
  find_account accounts k = None ↔ ∀ a, a ∈ accounts → acc_id a ≠ k.
Proof.
  unfold find_account. split.
  - intros H a Ha Hk. rewrite list_elem_of_In in Ha.
    pose proof (find_none _ _ H a Ha) as Hb. simpl in Hb.
    apply bool_decide_eq_false in Hb. done.
  - intros H. induction accounts as [|b l IH]; [done|]. simpl.
    rewrite bool_decide_eq_false_2.
    + apply IH. intros a Ha. apply H. by right.
    + apply H. by left.
Qed.

Lemma find_account_unique accounts a :
  NoDup (acc_id <$> accounts) → a ∈ accounts →
  find_account accounts (acc_id a) = Some a.
Proof.
  unfold find_account. induction accounts as [|b l IH]; intros Hnd Ha.
  - by apply elem_of_nil in Ha.
  - simpl. rewrite fmap_cons in Hnd.
    inversion_clear Hnd as [|? ? Hb Hnd'].
    apply elem_of_cons in Ha as [->|Ha].
    + by rewrite bool_decide_eq_true_2.
    + rewrite bool_decide_eq_false_2; [by apply IH|].
      intros Heq. apply Hb. rewrite Heq. by apply list_elem_of_fmap_2.
Qed.

(** ** Balance accumulator *)

Lemma initBalances_fold_lookup (accounts : list Account) (m : gmap string Qc) k :
  foldl (λ m acc, <[acc_id acc := 0]> m) m accounts !! k
  = match find_account accounts k with Some _ => Some 0 | None => m !! k end.
Proof.
  revert m. unfold find_account.
  induction accounts as [|a l IH]; intros m; simpl; [done|].
  rewrite IH. case_bool_decide as Hk.
  - destruct (find _ l); [done|]. subst k. by rewrite lookup_insert_eq.
  - destruct (find _ l); [done|]. by rewrite lookup_insert_ne.
Qed.

Lemma initBalances_lookup accounts k :
  initBalances accounts !! k = (λ _, 0) <$> find_account accounts k.
Proof.
  unfold initBalances. rewrite initBalances_fold_lookup.
  by destruct (find_account accounts k).
Qed.

Lemma postTx_lookup accounts (m : gmap string Qc) tx k :
  postTx accounts m tx !! k
  = match find_account accounts k with
    | Some account =>
        if decide (accountId tx = k)
        then Some (default 0 (m !! k) + amountChange account tx)
        else m !! k
    | None => m !! k
    end.
Proof.
  unfold postTx. destruct (decide (accountId tx = k)) as [->|Hne].
  - destruct (find_account accounts k); [|done]. by rewrite lookup_insert_eq.
  - destruct (find_account accounts (accountId tx)).
    + rewrite lookup_insert_ne; [|done]. by destruct (find_account accounts k).
    + by destruct (find_account accounts k).
Qed.

(** The key that [+=] reads is always there. *)
Lemma postTx_key_present accounts (m : gmap string Qc) tx k :
  is_Some (m !! k) → is_Some (postTx accounts m tx !! k).
Proof.
  intros Hk. rewrite postTx_lookup.
  destruct (find_account accounts k); [|done]. by case_decide.
Qed.

Lemma foldl_postTx_lookup accounts txs (m : gmap string Qc) k :
  foldl (postTx accounts) m txs !! k
  = match find_account accounts k with
    | Some account =>
        match m !! k with
        | Some b =>
            Some (foldl (λ s tx, s + amountChange account tx) b
                    (filter (λ tx, accountId tx = k) txs))
        | None =>
            match filter (λ tx, accountId tx = k) txs with
            | [] => None
            | _ =>
                Some (foldl (λ s tx, s + amountChange account tx) 0
                        (filter (λ tx, accountId tx = k) txs))
            end
        end
    | None => m !! k
    end.
Proof.
  revert m. induction txs as [|tx txs IH]; intros m; simpl.
  - destruct (find_account accounts k); [|done]. by destruct (m !! k).
  - rewrite IH, postTx_lookup.
    destruct (find_account accounts k) as [account|]; [|done].
    rewrite filter_cons. case_decide as Hk; [|done].
    simpl. by destruct (m !! k).
Qed.

Lemma accountBalances_lookup accounts txs k :
  accountBalances accounts txs !! k
  = (λ account, sumQc (amountChange account
                         <$> filter (λ tx, accountId tx = k) txs))
      <$> find_account accounts k.
Proof.
  unfold accountBalances. rewrite foldl_postTx_lookup, initBalances_lookup.
  destruct (find_account accounts k) as [account|]; [|done]. simpl.
  f_equal. generalize (filter (λ tx, accountId tx = k) txs). intros l.
  rewrite <-reduce_sum_sumQc. unfold reduce_sum. generalize 0.
  induction l as [|x l IH]; intros b; simpl; [done|]. apply IH.
Qed.




(** ** Period splitter *)

Ltac solve_triple :=
  apply pair_equal_spec; split; [apply pair_equal_spec; split|]; ring.

Section PeriodSplitter.

Variable Date_getTime : string → option Z.
Variable startDate : option Z.
Variable account : Account.

Let before := datedBefore Date_getTime startDate.

Lemma splitStep_before st tx :
  before tx →
  splitStep Date_getTime startDate account st tx
  = (st.1.1 + amountChange account tx, st.1.2, st.2).
Proof.
  unfold before, datedBefore, splitStep. destruct st as [[b d] c]. simpl.
  by destruct (date_lt _ _).
Qed.

Lemma splitStep_within st tx :
  ¬ before tx →
  splitStep Date_getTime startDate account st tx
  = (st.1.1,
     if decide (type tx = debit) then st.1.2 + amount tx else st.1.2,
     if decide (type tx = credit) then st.2 + amount tx else st.2).
Proof.
  unfold before, datedBefore, splitStep. destruct st as [[b d] c]. simpl.
  by destruct (date_lt _ _).
Qed.

Lemma foldl_splitStep (l : list Transaction) (b d c : Qc) :
  foldl (splitStep Date_getTime startDate account) (b, d, c) l
  = (b + sumQc (amountChange account <$> filter before l),
     d + sumQc (amount <$> filter (λ tx, ¬ before tx ∧ type tx = debit) l),
     c + sumQc (amount <$> filter (λ tx, ¬ before tx ∧ type tx = credit) l)).
Proof.
  revert b d c. induction l as [|tx l IH]; intros b d c; cbn [foldl].
  - rewrite !filter_nil. sum_norm. solve_triple.
  - rewrite !filter_cons. destruct (decide (before tx)) as [Hb|Hb].
    + rewrite (splitStep_before _ _ Hb). cbn [fst snd]. rewrite IH.
      rewrite !decide_False by tauto. sum_norm. solve_triple.
    + rewrite (splitStep_within _ _ Hb). cbn [fst snd].
      destruct (type tx) eqn:Ht.
      * rewrite (decide_True (P := debit = debit)) by done.
        rewrite (decide_False (P := debit = credit)) by done.
        rewrite (decide_True (P := _ ∧ debit = debit)) by tauto.
        rewrite (decide_False (P := _ ∧ debit = credit)) by (intros [_ ?]; done).
        rewrite IH. sum_norm. solve_triple.
      * rewrite (decide_False (P := credit = debit)) by done.
        rewrite (decide_True (P := credit = credit)) by done.
        rewrite (decide_False (P := _ ∧ credit = debit)) by (intros [_ ?]; done).
        rewrite (decide_True (P := _ ∧ credit = credit)) by tauto.
        rewrite IH. sum_norm. solve_triple.
Qed.

(** Whatever the period boundary, the split totals recombine to the
    sum of all sign-adjusted amounts. *)
Lemma foldl_splitStep_total (l : list Transaction) (b d c : Qc) :
  let '(b', d', c') := foldl (splitStep Date_getTime startDate account) (b, d, c) l in
  b' + (if decide (normalBalance account = debit) then d' - c' else c' - d')
  = b + (if decide (normalBalance account = debit) then d - c else c - d)
    + sumQc (amountChange account <$> l).
Proof.
  revert b d c. induction l as [|tx l IH]; intros b d c; cbn [foldl].
  - sum_norm. ring.
  - destruct (decide (before tx)) as [Hb|Hb].
    + rewrite (splitStep_before _ _ Hb). cbn [fst snd].
      specialize (IH (b + amountChange account tx) d c).
      destruct (foldl _ _ l) as [[b' d'] c']. rewrite IH.
      sum_norm. ring.
    + rewrite (splitStep_within _ _ Hb). cbn [fst snd].
      match goal with
      | |- context [foldl _ (b, ?d1, ?c1) l] => specialize (IH b d1 c1)
      end.
      destruct (foldl _ _ l) as [[b' d'] c']. rewrite IH.
      sum_norm. unfold amountChange.
      destruct (type tx), (normalBalance account);
        repeat case_decide; try done; ring.
Qed.

End PeriodSplitter.




(** ** Trial-balance summary and single-account ledger *)

Lemma filter_none {A} (P : A → Prop) `{∀ x, Decision (P x)} (l : list A) :
  ¬ Exists P l → filter P l = [].
Proof.
  induction l as [|x l IH]; intros Hno; [done|].
  rewrite filter_cons_False.
  - apply IH. intros He. apply Hno. by right.
  - intros Hx. apply Hno. by left.
Qed.

Section LedgerViews.

Variable Date_getTime : string → option Z.
Variable company : Company.

Lemma summaryRow_accountId txs a :
  LedgerSummaryData.accountId (summaryRow Date_getTime company txs a) = acc_id a.
Proof. unfold summaryRow. by destruct (foldl _ _ _) as [[? ?] ?]. Qed.

Lemma summaryRow_untouched txs a :
  ¬ Exists (λ tx, accountId tx = acc_id a) txs →
  LedgerSummaryData.beginningBalance (summaryRow Date_getTime company txs a)
  = beginningBalance a.
Proof.
  intros Hno. unfold summaryRow.
  replace (filter (λ tx, accountId tx = acc_id a) txs) with (@nil Transaction).
  - reflexivity.
  - symmetry. by apply filter_none.
Qed.

Lemma summaryRow_endingBalance txs a :
  LedgerSummaryData.endingBalance (summaryRow Date_getTime company txs a)
  = beginningBalance a
    + sumQc (amountChange a <$> filter (λ tx, accountId tx = acc_id a) txs).
Proof.
  unfold summaryRow.
  pose proof (foldl_splitStep_total Date_getTime
    (Date_getTime (template (fiscalYearStart company) +:+ "T00:00:00")) a
    (filter (λ tx, accountId tx = acc_id a) txs) (beginningBalance a) 0 0) as H.
  destruct (foldl _ _ _) as [[b d] c]. cbn. rewrite H.
  case_decide; ring.
Qed.

Lemma insertByDate_Permutation tx l :
  insertByDate Date_getTime tx l ≡ₚ tx :: l.
Proof.
  induction l as [|y l IH]; simpl; [done|].
  case_decide; [done|]. rewrite IH. apply Permutation_swap.
Qed.

Lemma sortByDate_Permutation l : sortByDate Date_getTime l ≡ₚ l.
Proof.
  unfold sortByDate. induction l as [|x l IH]; simpl; [done|].
  by rewrite insertByDate_Permutation, IH.
Qed.

Lemma runningEntries_txs a b l : entry_tx <$> runningEntries a b l = l.
Proof.
  revert b. induction l as [|tx l IH]; intros b; simpl; [done|].
  by rewrite IH.
Qed.

Lemma runningEntries_last a b l :
  default b (last (balance <$> runningEntries a b l))
  = b + sumQc (amountChange a <$> l).
Proof.
  revert b. induction l as [|tx l IH]; intros b.
  - simpl. sum_norm. ring.
  - cbn [runningEntries]. rewrite fmap_cons, last_cons. cbn [balance].
    specialize (IH (b + amountChange a tx)).
    destruct (last _) as [y|]; unfold default in *; cbn [from_option id] in *;
      sum_norm; rewrite IH; ring.
Qed.

End LedgerViews.

(** C9. Inclusion filter of the trial balance.  In the all-accounts view
    an account of the directory has a row exactly when its beginning
    balance is not zero or some transaction references its id; every row
    of the view comes from such an account. *)
Theorem C9_trial_balance_filter (Date_getTime : string → option Z)
    (company : Company) (txs : list Transaction) (accounts : list Account) :
  ∃ rows,
    ledgerData Date_getTime company txs accounts "all" = LedgerSummary rows
    ∧ (∀ a, a ∈ accounts →
         (summaryRow Date_getTime company txs a ∈ rows
          ↔ beginningBalance a ≠ 0 ∨ ∃ tx, tx ∈ txs ∧ accountId tx = acc_id a))
    ∧ (∀ row, row ∈ rows →
         ∃ a, a ∈ accounts
              ∧ (beginningBalance a ≠ 0 ∨ ∃ tx, tx ∈ txs ∧ accountId tx = acc_id a)
              ∧ row = summaryRow Date_getTime company txs a).
Proof.
  eexists. split; [reflexivity|]. unfold summaryData. split.
  - intros a Ha. rewrite <-Exists_exists. split.
    + intros Hrow. apply list_elem_of_fmap in Hrow as (a' & Heq & Ha').
      apply list_elem_of_filter in Ha' as [Hp _].
      destruct (decide (Exists (λ tx, accountId tx = acc_id a) txs)) as [|Hno];
        [by right|left].
      assert (Hid : acc_id a = acc_id a').
      { by rewrite <-!(summaryRow_accountId Date_getTime company txs), Heq. }
      assert (Hno' : ¬ Exists (λ tx, accountId tx = acc_id a') txs)
        by (by rewrite <-Hid).
      destruct Hp as [Hbb|?]; [|done].
      rewrite <-(summaryRow_untouched Date_getTime company txs a Hno), Heq.
      by rewrite (summaryRow_untouched Date_getTime company txs a' Hno').
    + intros Hp. apply list_elem_of_fmap_2. by apply list_elem_of_filter.
  - intros row Hrow. apply list_elem_of_fmap in Hrow as (a & -> & Ha).
    apply list_elem_of_filter in Ha as [Hp Ha]. exists a.
    split; [done|]. split; [|done]. by rewrite <-Exists_exists.
Qed.

Lemma C9_trial_balance_filter_witness :
  ∃ rows,
    ledgerData ex_getTime ex_company ex_transactions ex_accounts "all"
    = LedgerSummary rows
    ∧ summaryRow ex_getTime ex_company ex_transactions ex_kas ∈ rows
    ∧ summaryRow ex_getTime ex_company ex_transactions ex_labaDitahan ∉ rows.
Proof.
  destruct (C9_trial_balance_filter ex_getTime ex_company ex_transactions
              ex_accounts) as (rows & Heq & Hiff & _).
  exists rows. split; [exact Heq|]. split.
  - apply (Hiff ex_kas); [vm_compute; repeat constructor|].
    left. vm_compute. discriminate.
  - intros Hin. apply (Hiff ex_labaDitahan) in Hin;
      [|vm_compute; repeat constructor].
    destruct Hin as [Hbb|(tx & Htx & Hid)]; [by apply Hbb|].
    revert Hid. vm_compute in Htx.
    repeat (apply elem_of_cons in Htx as [->|Htx]; [vm_compute; discriminate|]).
    by apply elem_of_nil in Htx.
Defined.

(** ** Statement classifier *)

(** The full-history balance of an account: the sum of the sign-adjusted
    amounts of all the transactions that reference it. *)
Lemma accumulated_balance accounts txs a :
  NoDup (acc_id <$> accounts) → a ∈ accounts →
  or_zero (accountBalances accounts txs !! acc_id a)
  = sumQc (amountChange a <$> filter (λ tx, accountId tx = acc_id a) txs).
Proof.
  intros Hnd Ha. rewrite accountBalances_lookup.
  rewrite (find_account_unique _ _ Hnd Ha). apply or_zero_Some.
Qed.


Lemma rollForward_lookup accounts laba (m : gmap string Qc) k :
  rollForward accounts laba m !! k
  = match find_account accounts labaDitahanId with
    | Some _ =>
        if decide (k = labaDitahanId)
        then Some (or_zero (m !! labaDitahanId) + laba) else m !! k
    | None => m !! k
    end.
Proof.
  unfold rollForward. destruct (find_account accounts labaDitahanId); [|done].
  case_decide as Hk.
  - subst k. by rewrite lookup_insert_eq.
  - by rewrite lookup_insert_ne.
Qed.





(** ** Normal-balance derivation *)

(** C8.  The normal balance that [AccountModal] derives from the
    category is debit for asset, cost_of_sales, expense and
    other_expense, and credit for liability, equity, income and
    other_income; the derivation touches no other field. *)
Theorem C8_normal_balance (a : Account) :
  normalBalance (categoryEffect a)
  = match category a with
    | asset => debit
    | cost_of_sales => debit
    | expense => debit
    | other_expense => debit
    | liability => credit
    | equity => credit
    | income => credit
    | other_income => credit
    end
  ∧ acc_id (categoryEffect a) = acc_id a
  ∧ acc_name (categoryEffect a) = acc_name a
  ∧ category (categoryEffect a) = category a
  ∧ beginningBalance (categoryEffect a) = beginningBalance a.
Proof.
  unfold categoryEffect, debitCategories.
  destruct a as [i n c nb bb]. cbn [category].
  destruct c; repeat split; reflexivity.
Qed.

(** ** Journal entries *)


Lemma entriesTotal_cons t e es :
  entriesTotal t (e :: es)
  = (if decide (e_type e = Some t) then or_zero (e_amount e) else 0)
    + entriesTotal t es.
Proof.
  unfold entriesTotal. rewrite !reduce_sum_sumQc, filter_cons.
  case_decide; sum_norm; ring.
Qed.

Lemma entriesTotal_line t d s k t' a es :
  entriesTotal t (line d s k t' a :: es)
  = (if decide (t' = t) then a else 0) + entriesTotal t es.
Proof.
  rewrite entriesTotal_cons. cbn [line e_type e_amount]. rewrite or_zero_Some.
  destruct (decide (t' = t)) as [->|Hne].
  - by rewrite decide_True.
  - rewrite decide_False; [done|]. by intros [= ?].
Qed.

Lemma finishSave_lines l : emittedLines (finishSave l) = l.
Proof. by destruct l. Qed.

(** ** Compound entry generator *)

Lemma handleSave_complete accounts accountId acct tax wh amount description date :
  amount ≠ 0 → description ≠ "" → date ≠ "" → accountId ≠ "" →
  find_account accounts accountId = Some acct →
  handleSaveTransaction false accounts (simpleEntry accountId)
    (Some (simpleOptions tax wh amount description date))
  = finishSave (compoundLines acct accountId tax wh amount description date).
Proof.
  intros Ha Hd Hdt Hk Hfind. unfold handleSaveTransaction, simpleOptions.
  cbn [baseAmount desc o_date kenaPpn potongPph23 truthy_num truthy_str
       truthy_flag simpleEntry head mbind option_bind e_accountId default
       from_option id].
  rewrite !decide_False by done. by rewrite Hfind.
Qed.




(** ** Manual multi-line journal *)


Lemma handleSubmit_manual st :
  handleSubmit true st
  = if decide (tolerance < Qcabs (entriesTotal debit (entries st)
                                  - entriesTotal credit (entries st))
               ∨ entriesTotal debit (entries st) = 0)
    then SubmitError unbalancedMsg
    else SubmitSave (completeEntry (commonDesc st) (commonDate st) <$> entries st) None.
Proof. reflexivity. Qed.




(** * Further properties of the code *)

(** ** Sums over accounts and over transactions *)

Lemma sumQc_fmap_plus {A} (f g : A → Qc) (l : list A) :
  sumQc ((λ x, f x + g x) <$> l) = sumQc (f <$> l) + sumQc (g <$> l).
Proof.
  induction l as [|x l IH]; sum_norm; [ring|]. rewrite IH. ring.
Qed.

Lemma sumQc_fmap_zero {A} (f : A → Qc) (l : list A) :
  (∀ x, x ∈ l → f x = 0) → sumQc (f <$> l) = 0.
Proof.
  induction l as [|x l IH]; intros Hf; sum_norm; [done|].
  rewrite Hf by left. rewrite IH; [ring|]. intros y Hy. apply Hf. by right.
Qed.

Lemma sumQc_fmap_ext {A} (f g : A → Qc) (l : list A) :
  (∀ x, x ∈ l → f x = g x) → sumQc (f <$> l) = sumQc (g <$> l).
Proof.
  intros Hfg. f_equal. apply Forall_fmap_ext_1, Forall_forall. exact Hfg.
Qed.

(** With unique ids, a sum over the accounts that picks out one id is
    the term of the account found under that id. *)
Lemma sumQc_pick_account (P : Account → Prop) `{∀ a, Decision (P a)}
    (g : Account → Qc) (accounts : list Account) (k : string) :
  NoDup (acc_id <$> accounts) →
  sumQc ((λ a, if decide (acc_id a = k) then g a else 0) <$> filter P accounts)
  = match find_account accounts k with
    | Some a => if decide (P a) then g a else 0
    | None => 0
    end.
Proof.
  unfold find_account. induction accounts as [|b l IH]; intros Hnd.
  - reflexivity.
  - rewrite fmap_cons in Hnd. inversion_clear Hnd as [|? ? Hb Hnd'].
    cbn [find]. rewrite filter_cons. case_bool_decide as Hk.
    + assert (Hrest : sumQc ((λ a, if decide (acc_id a = k) then g a else 0)
                               <$> filter P l) = 0).
      { apply sumQc_fmap_zero. intros a Ha.
        apply list_elem_of_filter in Ha as [_ Ha].
        rewrite decide_False; [done|]. intros Heq. apply Hb.
        rewrite Hk, <-Heq. by apply list_elem_of_fmap_2. }
      destruct (decide (P b)); sum_norm; rewrite Hrest.
      * rewrite decide_True by done. ring.
      * done.
    + destruct (decide (P b)); sum_norm; rewrite IH by done.
      * rewrite decide_False by done. ring.
      * done.
Qed.

Lemma accumulated_cons tx txs a :
  accumulated (tx :: txs) a
  = (if decide (acc_id a = accountId tx) then amountChange a tx else 0)
    + accumulated txs a.
Proof.
  unfold accumulated. rewrite filter_cons.
  destruct (decide (accountId tx = acc_id a)) as [Heq|Hne].
  - rewrite decide_True by done. by sum_norm.
  - rewrite decide_False by done. ring.
Qed.

(** With unique ids, summing the accumulated balances of the selected
    accounts is summing the contributions of the transactions. *)
Lemma sum_accumulated_by_tx (P : Account → Prop) `{∀ a, Decision (P a)}
    (accounts : list Account) (txs : list Transaction) :
  NoDup (acc_id <$> accounts) →
  sumQc (accumulated txs <$> filter P accounts)
  = sumQc (contribution accounts P <$> txs).
Proof.
  intros Hnd. induction txs as [|tx txs IH].
  - sum_norm. by apply sumQc_fmap_zero.
  - sum_norm. rewrite <-IH.
    rewrite (sumQc_fmap_ext _ _ _ (λ a _, accumulated_cons tx txs a)).
    rewrite (sumQc_fmap_plus
               (λ a, if decide (acc_id a = accountId tx)
                     then amountChange a tx else 0)).
    f_equal. unfold contribution.
    apply (sumQc_pick_account P (λ a, amountChange a tx)). exact Hnd.
Qed.

(** The amounts of a section after the roll-forward. *)
Lemma sectionItems_rolled (P : Account → Prop) `{∀ a, Decision (P a)}
    (accounts : list Account) (txs : list Transaction) (laba : Qc) :
  NoDup (acc_id <$> accounts) →
  item_amount <$> sectionItems
    (rollForward accounts laba (accountBalances accounts txs)) P accounts
  = (λ a, (if decide (acc_id a = labaDitahanId) then laba else 0)
          + accumulated txs a) <$> filter P accounts.
Proof.
  intros Hnd. unfold sectionItems. rewrite <-list_fmap_compose.
  apply Forall_fmap_ext_1, Forall_forall. intros a Ha.
  apply list_elem_of_filter in Ha as [_ Ha]. cbn.
  rewrite rollForward_lookup. case_decide as Hid.
  - rewrite <-Hid. rewrite (find_account_unique _ _ Hnd Ha).
    rewrite (accumulated_balance _ _ _ Hnd Ha), or_zero_Some.
    unfold accumulated. ring.
  - replace (or_zero (match find_account accounts labaDitahanId with
                      | Some _ => accountBalances accounts txs !! acc_id a
                      | None => accountBalances accounts txs !! acc_id a
                      end))
      with (or_zero (accountBalances accounts txs !! acc_id a))
      by (by destruct (find_account accounts labaDitahanId)).
    rewrite (accumulated_balance _ _ _ Hnd Ha). unfold accumulated. ring.
Qed.

Lemma sectionItems_plain (P : Account → Prop) `{∀ a, Decision (P a)}
    (accounts : list Account) (txs : list Transaction) :
  NoDup (acc_id <$> accounts) →
  item_amount <$> sectionItems (accountBalances accounts txs) P accounts
  = accumulated txs <$> filter P accounts.
Proof.
  intros Hnd. unfold sectionItems. rewrite <-list_fmap_compose.
  apply Forall_fmap_ext_1, Forall_forall. intros a Ha.
  apply list_elem_of_filter in Ha as [_ Ha]. cbn.
  by rewrite (accumulated_balance _ _ _ Hnd Ha).
Qed.

Lemma sectionTotal_rolled (P : Account → Prop) `{∀ a, Decision (P a)}
    (accounts : list Account) (txs : list Transaction) (laba : Qc) :
  NoDup (acc_id <$> accounts) →
  sectionTotal (sectionItems
    (rollForward accounts laba (accountBalances accounts txs)) P accounts)
  = match find_account accounts labaDitahanId with
    | Some re => if decide (P re) then laba else 0
    | None => 0
    end
    + sumQc (contribution accounts P <$> txs).
Proof.
  intros Hnd. unfold sectionTotal.
  rewrite reduce_sum_sumQc, sectionItems_rolled by done.
  rewrite (sumQc_fmap_plus
             (λ a, if decide (acc_id a = labaDitahanId) then laba else 0)).
  rewrite (sumQc_pick_account P (λ _, laba)) by done.
  fold (accumulated txs). by rewrite sum_accumulated_by_tx.
Qed.

Lemma sectionTotal_plain (P : Account → Prop) `{∀ a, Decision (P a)}
    (accounts : list Account) (txs : list Transaction) :
  NoDup (acc_id <$> accounts) →
  sectionTotal (sectionItems (accountBalances accounts txs) P accounts)
  = sumQc (contribution accounts P <$> txs).
Proof.
  intros Hnd. unfold sectionTotal.
  rewrite reduce_sum_sumQc, sectionItems_plain by done.
  by apply sum_accumulated_by_tx.
Qed.

(** The debit amount of a transaction counted positive, the credit
    amount negative. *)
Lemma contribution_signed accounts tx a :
  find_account accounts (accountId tx) = Some a →
  derivedNormalBalance a →
  contribution accounts (λ a, category a = asset) tx
  + contribution accounts isExpense tx
  - contribution accounts (λ a, category a = liability) tx
  - contribution accounts (λ a, category a = equity) tx
  - contribution accounts isRevenue tx
  = if decide (type tx = debit) then amount tx else - amount tx.
Proof.
  intros Hfind Hnb. unfold contribution. rewrite Hfind.
  unfold derivedNormalBalance in Hnb. unfold amountChange. rewrite Hnb.
  unfold isExpense, isRevenue.
  destruct a as [i n c nb bb]. cbn [category normalBalance] in *.
  destruct c, (type tx); vm_compute categoryEffect;
    cbn [normalBalance setNormalBalance];
    repeat case_decide; try done; try ring;
    exfalso; intuition congruence.
Qed.

Lemma signed_total_cons (tx : Transaction) (txs : list Transaction) :
  sumQc (amount <$> filter (λ tx, type tx = debit) (tx :: txs))
  - sumQc (amount <$> filter (λ tx, type tx = credit) (tx :: txs))
  = (if decide (type tx = debit) then amount tx else - amount tx)
    + (sumQc (amount <$> filter (λ tx, type tx = debit) txs)
       - sumQc (amount <$> filter (λ tx, type tx = credit) txs)).
Proof.
  rewrite !filter_cons. destruct (type tx).
  - rewrite !(decide_True (P := debit = debit)) by done.
    rewrite (decide_False (P := debit = credit)) by done. sum_norm. ring.
  - rewrite !(decide_False (P := credit = debit)) by done.
    rewrite (decide_True (P := credit = credit)) by done. sum_norm. ring.
Qed.

Lemma journal_signed_total accounts txs :
  (∀ a, a ∈ accounts → derivedNormalBalance a) →
  (∀ tx, tx ∈ txs → is_Some (find_account accounts (accountId tx))) →
  sumQc (contribution accounts (λ a, category a = asset) <$> txs)
  + sumQc (contribution accounts isExpense <$> txs)
  - sumQc (contribution accounts (λ a, category a = liability) <$> txs)
  - sumQc (contribution accounts (λ a, category a = equity) <$> txs)
  - sumQc (contribution accounts isRevenue <$> txs)
  = sumQc (amount <$> filter (λ tx, type tx = debit) txs)
    - sumQc (amount <$> filter (λ tx, type tx = credit) txs).
Proof.
  intros Hder Hknown. induction txs as [|tx txs IH].
  - rewrite !filter_nil. sum_norm. ring.
  - destruct (Hknown tx) as [a Hfind]; [by left|].
    pose proof (contribution_signed accounts tx a Hfind) as Hs.
    specialize (Hs (Hder a (proj1 (find_account_Some _ _ _ Hfind)))).
    assert (Hknown' : ∀ t, t ∈ txs → is_Some (find_account accounts (accountId t)))
      by (intros t Ht; apply Hknown; by right).
    specialize (IH Hknown').
    rewrite signed_total_cons, <-IH, <-Hs. sum_norm. ring.
Qed.

(** ** The balance sheet of [Reports] *)

Lemma labaBersih_by_tx accounts txs :
  NoDup (acc_id <$> accounts) →
  computeLabaBersih (computePnl accounts (accountBalances accounts txs))
  = sumQc (contribution accounts isRevenue <$> txs)
    - sumQc (contribution accounts isExpense <$> txs).
Proof.
  intros Hnd. unfold computeLabaBersih, computePnl. cbn [pendapatan beban].
  by rewrite !sectionTotal_plain.
Qed.

(** The accounting equation on the exact figures.  With unique account
    ids, every account on
    the normal side of its category, every transaction on a known
    account and the retained-earnings account 3-9999 among the equity
    accounts, total assets are total liabilities plus total equity plus
    the amount by which all debits exceed all credits: for books in
    balance, assets equal liabilities plus equity. *)
Lemma balance_sheet_equation_exact (accounts : list Account) (txs : list Transaction)
    (re : Account) :
  NoDup (acc_id <$> accounts) →
  (∀ a, a ∈ accounts → derivedNormalBalance a) →
  (∀ tx, tx ∈ txs → is_Some (find_account accounts (accountId tx))) →
  find_account accounts "3-9999" = Some re →
  category re = equity →
  let r := reports txs accounts in
  totalAset r
  = totalLiabilitas r + totalEkuitas r
    + (sumQc (amount <$> filter (λ tx, type tx = debit) txs)
       - sumQc (amount <$> filter (λ tx, type tx = credit) txs)).
Proof.
  intros Hnd Hder Hknown Hre Hcat r.
  pose proof (journal_signed_total accounts txs Hder Hknown) as Hj.
  pose proof (labaBersih_by_tx accounts txs Hnd) as Hl.
  subst r. unfold reports.
  cbn [totalAset totalLiabilitas totalEkuitas labaBersih].
  unfold computeBalanceSheet. cbn [aset liabilitas ekuitas].
  rewrite !sectionTotal_rolled by done.
  change labaDitahanId with "3-9999". rewrite Hre.
  rewrite (decide_False (P := category re = asset)) by (by rewrite Hcat).
  rewrite (decide_False (P := category re = liability)) by (by rewrite Hcat).
  rewrite (decide_True (P := category re = equity)) by done.
  rewrite Hl, <-Hj. ring.
Qed.

(** On the exact figures, without an account 3-9999 the net income
    reaches no equity item: under the same conditions total assets
    exceed total liabilities plus total equity by the net income (and
    by any excess of debits over credits). *)
Lemma balance_sheet_without_retained_earnings_exact (accounts : list Account)
    (txs : list Transaction) :
  NoDup (acc_id <$> accounts) →
  (∀ a, a ∈ accounts → derivedNormalBalance a) →
  (∀ tx, tx ∈ txs → is_Some (find_account accounts (accountId tx))) →
  find_account accounts "3-9999" = None →
  let r := reports txs accounts in
  totalAset r
  = totalLiabilitas r + totalEkuitas r + labaBersih r
    + (sumQc (amount <$> filter (λ tx, type tx = debit) txs)
       - sumQc (amount <$> filter (λ tx, type tx = credit) txs)).
Proof.
  intros Hnd Hder Hknown Hre r.
  pose proof (journal_signed_total accounts txs Hder Hknown) as Hj.
  pose proof (labaBersih_by_tx accounts txs Hnd) as Hl.
  subst r. unfold reports.
  cbn [totalAset totalLiabilitas totalEkuitas labaBersih].
  unfold computeBalanceSheet. cbn [aset liabilitas ekuitas].
  rewrite !sectionTotal_rolled by done.
  change labaDitahanId with "3-9999". rewrite Hre.
  rewrite Hl, <-Hj. ring.
Qed.

(** ** How the balance accumulator composes *)

(** The order of the transactions does not matter to the exact figures
    of the reports. *)
Lemma reports_order_irrelevant_exact (accounts : list Account)
    (txs txs' : list Transaction) :
  txs ≡ₚ txs' → reports txs accounts = reports txs' accounts.
Proof.
  intros Hp. unfold reports.
  assert (Heq : accountBalances accounts txs = accountBalances accounts txs').
  { apply map_eq. intros k. rewrite !accountBalances_lookup.
    destruct (find_account accounts k) as [a|]; [|done]. cbn. f_equal.
    apply sumQc_Permutation, fmap_Permutation. by rewrite Hp. }
  by rewrite Heq.
Qed.

(** On the exact figures, posting two batches one after the other
    gives, for every account id, the sum of the balances of the two
    batches. *)
Lemma accountBalances_app_exact (accounts : list Account)
    (txs1 txs2 : list Transaction) :
  accountBalances accounts (txs1 ++ txs2)
  = union_with (λ x y, Some (x + y))
      (accountBalances accounts txs1) (accountBalances accounts txs2).
Proof.
  apply map_eq. intros k. rewrite lookup_union_with, !accountBalances_lookup.
  destruct (find_account accounts k) as [a|]; [|done]. cbn. f_equal.
  by rewrite filter_app, fmap_app, sumQc_app.
Qed.

(** ** A company without a fiscal-year start *)



(** ** The date sort of the journal and of the ledger *)

Lemma StronglySorted_weaken {A} (R R' : A → A → Prop) (P : A → Prop) (l : list A) :
  (∀ x y, P x → P y → R x y → R' x y) → Forall P l →
  StronglySorted R l → StronglySorted R' l.
Proof.
  intros HR HP Hs. induction Hs as [|x l Hs IH Hx]; [constructor|].
  apply Forall_cons in HP as [HPx HPl]. constructor; [by apply IH|].
  rewrite Forall_forall in Hx, HPl |- *. intros y Hy. apply HR; auto.
Qed.

Section DateSort.

Variable Date_getTime : string → option Z.

Let valid (tx : Transaction) : Prop := is_Some (Date_getTime (date tx)).
Let before_or_same (x y : Transaction) : Prop := (compareDate Date_getTime x y ≤ 0)%Z.

Lemma compareDate_trans x y z :
  valid x → valid y → valid z →
  before_or_same x y → before_or_same y z → before_or_same x z.
Proof.
  unfold valid, before_or_same, compareDate.
  intros [tx ->] [ty ->] [tz ->]. lia.
Qed.

Lemma compareDate_flip x y :
  valid x → valid y → ¬ before_or_same x y → before_or_same y x.
Proof.
  unfold valid, before_or_same, compareDate.
  intros [tx ->] [ty ->]. lia.
Qed.

Lemma insertByDate_sorted x l :
  valid x → Forall valid l →
  StronglySorted before_or_same l →
  StronglySorted before_or_same (insertByDate Date_getTime x l).
Proof.
  intros Hx Hl Hs. induction l as [|y l IH]; cbn [insertByDate].
  - by repeat constructor.
  - apply Forall_cons in Hl as [Hy Hl].
    apply StronglySorted_inv in Hs as [Hs Hyl].
    case_decide as Hc.
    + constructor; [by constructor|]. constructor; [done|].
      rewrite Forall_forall in Hyl, Hl |- *. intros z Hz.
      apply (compareDate_trans x y z); auto.
    + constructor; [by apply IH|].
      rewrite (insertByDate_Permutation Date_getTime x l).
      constructor; [|done]. by apply compareDate_flip.
Qed.

Lemma insertByDate_filter_time (t : Z) x l :
  filter (λ tx, Date_getTime (date tx) = Some t) (insertByDate Date_getTime x l)
  = filter (λ tx, Date_getTime (date tx) = Some t) (x :: l).
Proof.
  induction l as [|y l IH]; cbn [insertByDate]; [done|].
  case_decide as Hc; [done|].
  rewrite filter_cons, IH, !filter_cons.
  destruct (decide (Date_getTime (date y) = Some t)) as [Hy|]; [|done].
  destruct (decide (Date_getTime (date x) = Some t)) as [Hx|]; [|done].
  exfalso. apply Hc. unfold compareDate. rewrite Hx, Hy. lia.
Qed.

(** When every date has a time value, the date sort of the journal and
    of the single-account ledger keeps every transaction, keeps
    transactions with the same time value in their original order, and
    puts the result in the order of time: of two transactions of the
    result the one that comes first has the smaller or the same time
    value.  These three facts determine the result, whatever stable
    sorting method the engine uses. *)
Theorem sortByDate_stable_sorted (l : list Transaction) :
  Forall (λ tx, is_Some (Date_getTime (date tx))) l →
  sortByDate Date_getTime l ≡ₚ l
  ∧ (∀ t, filter (λ tx, Date_getTime (date tx) = Some t) (sortByDate Date_getTime l)
          = filter (λ tx, Date_getTime (date tx) = Some t) l)
  ∧ StronglySorted
      (λ x y, ∃ tx ty : Z, Date_getTime (date x) = Some tx
                           ∧ Date_getTime (date y) = Some ty ∧ (tx ≤ ty)%Z)
      (sortByDate Date_getTime l).
Proof.
  intros Hv. split; [apply sortByDate_Permutation|]. split.
  - intros t. unfold sortByDate. clear Hv. induction l as [|x l IH]; [done|].
    cbn [foldr]. rewrite insertByDate_filter_time, !filter_cons. by rewrite IH.
  - apply (StronglySorted_weaken
             (λ x y, (compareDate Date_getTime x y ≤ 0)%Z) _
             (λ tx, is_Some (Date_getTime (date tx)))).
    + intros x y [tx Hx] [ty Hy] Hc. unfold compareDate in Hc.
      rewrite Hx, Hy in Hc. exists tx, ty. repeat split; [done|done|lia].
    + by rewrite (sortByDate_Permutation Date_getTime l).
    + unfold sortByDate. induction l as [|x l IH]; [constructor|].
      apply Forall_cons in Hv as [Hx Hv]. cbn [foldr].
      apply insertByDate_sorted; [done| |by apply IH].
      fold (sortByDate Date_getTime l).
      by rewrite (sortByDate_Permutation Date_getTime l).
Qed.

End DateSort.

(** The sample journal, fetched newest first, comes out oldest first. *)
Lemma sortByDate_stable_sorted_witness :
  sortByDate ex_getTime (reverse ex_transactions) ≡ₚ reverse ex_transactions
  ∧ StronglySorted
      (λ x y, ∃ tx ty : Z, ex_getTime (date x) = Some tx
                           ∧ ex_getTime (date y) = Some ty ∧ (tx ≤ ty)%Z)
      (sortByDate ex_getTime (reverse ex_transactions)).
Proof.
  destruct (sortByDate_stable_sorted ex_getTime (reverse ex_transactions))
    as (H1 & _ & H3).
  - apply (bool_decide_unpack _). vm_compute. exact I.
  - split; [exact H1|exact H3].
Defined.

(** ** Running balances of the single-account ledger *)




(** ** Dashboard totals *)

Lemma foldl_dashboardStep accounts txs (p b k : Qc) :
  foldl (dashboardStep accounts) (p, b, k) txs
  = (p + sumQc (contribution accounts (λ a, category a = income) <$> txs),
     b - sumQc (contribution accounts (λ a, category a = expense) <$> txs),
     k + sumQc (contribution accounts (λ a, acc_id a = "1-1130") <$> txs)).
Proof.
  revert p b k. induction txs as [|tx txs IH]; intros p b k; cbn [foldl].
  - sum_norm. solve_triple.
  - unfold dashboardStep at 2. sum_norm. unfold contribution at 1 3 5.
    destruct (find_account accounts (accountId tx)) as [a|]; rewrite IH.
    + repeat case_decide; solve_triple.
    + solve_triple.
Qed.

Lemma contribution_of_id accounts k txs :
  sumQc (contribution accounts (λ a, acc_id a = k) <$> txs)
  = or_zero (accountBalances accounts txs !! k).
Proof.
  rewrite accountBalances_lookup.
  destruct (find_account accounts k) as [a|] eqn:Hk; cbn [fmap option_fmap option_map].
  - rewrite or_zero_Some. induction txs as [|tx txs IH]; [done|].
    rewrite filter_cons. sum_norm. rewrite IH. unfold contribution.
    destruct (decide (accountId tx = k)) as [->|Hne].
    + rewrite Hk. apply find_account_Some in Hk as [_ Hid].
      rewrite decide_True by done. by sum_norm.
    + destruct (find_account accounts (accountId tx)) as [a'|] eqn:Hf; [|ring].
      apply find_account_Some in Hf as [_ Hid].
      rewrite decide_False by congruence. ring.
  - apply sumQc_fmap_zero. intros tx _. unfold contribution.
    destruct (find_account accounts (accountId tx)) as [a'|] eqn:Hf; [|done].
    pose proof (find_account_Some _ _ _ Hf) as [_ Hid].
    rewrite decide_False; [done|]. intros Hid'.
    rewrite <-Hid', Hid in Hk. congruence.
Qed.

(** The cash figure of the dashboard is the balance the reports keep
    for account 1-1130, and zero when there is no such account. *)
Theorem dashboard_kas (accounts : list Account) (txs : list Transaction) :
  kas (dashboard txs accounts) = or_zero (accountBalances accounts txs !! "1-1130").
Proof.
  unfold dashboard. rewrite foldl_dashboardStep. cbn [kas].
  rewrite contribution_of_id. ring.
Qed.

(** On the exact figures, with unique ids, the dashboard's revenue
    total is the sum of the accumulated balances of the accounts of
    category income; its expense total is the negated sum of those of
    category expense; and its profit figure, revenue total minus
    expense total, is therefore the sum of the two sums. *)
Lemma dashboard_totals_exact (accounts : list Account) (txs : list Transaction) :
  NoDup (acc_id <$> accounts) →
  let revenue := sumQc (accumulated txs <$> filter (λ a, category a = income) accounts) in
  let expenses := sumQc (accumulated txs <$> filter (λ a, category a = expense) accounts) in
  totalPendapatan (dashboard txs accounts) = revenue
  ∧ totalBeban (dashboard txs accounts) = - expenses
  ∧ labaRugi (dashboard txs accounts) = revenue + expenses.
Proof.
  intros Hnd revenue expenses. subst revenue expenses.
  rewrite !sum_accumulated_by_tx by done.
  unfold dashboard. rewrite foldl_dashboardStep.
  cbn [totalPendapatan totalBeban labaRugi]. repeat split; ring.
Qed.

(** ** The account modal *)

(** The account modal saves exactly when id and name are filled in and,
    for a new account, no account of the directory has the id; an edit
    is not checked against the directory.  What it saves is the account
    as entered. *)
Theorem accountHandleSubmit_accepts (existingAccount : option Account)
    (allAccounts : list Account) (account : Account) :
  (accountHandleSubmit existingAccount allAccounts account = AccountSave account
   ↔ acc_id account ≠ "" ∧ acc_name account ≠ ""
     ∧ (existingAccount = None →
        ∀ acc, acc ∈ allAccounts → acc_id acc ≠ acc_id account))
  ∧ (∀ saved, accountHandleSubmit existingAccount allAccounts account
               = AccountSave saved → saved = account).
Proof.
  unfold accountHandleSubmit. split.
  - case_decide as He.
    + split; [done|]. intros (Hi & Hn & _). by destruct He.
    + destruct existingAccount as [ex|].
      * split; [|done]. intros _. split; [tauto|]. split; [tauto|]. done.
      * case_decide as Hdup.
        -- split; [done|]. intros (_ & _ & Hfresh). exfalso.
           apply Exists_exists in Hdup as (acc & Hacc & Hid).
           by apply (Hfresh eq_refl acc).
        -- split; [|done]. intros _. split; [tauto|]. split; [tauto|].
           intros _ acc Hacc Hid. apply Hdup, Exists_exists. eauto.
  - intros saved. repeat case_decide; destruct existingAccount;
      repeat case_decide; congruence.
Qed.

(** A new account with a free id is saved; one whose id is taken is
    turned down, unless it is an edit. *)
Lemma accountHandleSubmit_accepts_witness :
  accountHandleSubmit None ex_accounts_plain ex_pendapatan = AccountSave ex_pendapatan
  ∧ accountHandleSubmit None ex_accounts ex_pendapatan ≠ AccountSave ex_pendapatan
  ∧ accountHandleSubmit (Some ex_pendapatan) ex_accounts ex_pendapatan
    = AccountSave ex_pendapatan.
Proof.
  split; [|split].
  - apply (proj1 (accountHandleSubmit_accepts None ex_accounts_plain ex_pendapatan)).
    split; [discriminate|]. split; [discriminate|]. intros _ acc Hacc.
    unfold ex_accounts_plain in Hacc.
    repeat (apply elem_of_cons in Hacc as [->|Hacc]; [discriminate|]).
    by apply elem_of_nil in Hacc.
  - intros Hs.
    apply (proj1 (accountHandleSubmit_accepts None ex_accounts ex_pendapatan)) in Hs
      as (_ & _ & Hfresh).
    apply (Hfresh eq_refl ex_pendapatan); [|done].
    unfold ex_accounts. do 2 apply elem_of_cons, or_intror.
    apply elem_of_cons. by left.
  - apply (proj1 (accountHandleSubmit_accepts (Some ex_pendapatan) ex_accounts
                    ex_pendapatan)).
    split; [discriminate|]. split; [discriminate|]. discriminate.
Defined.

(** ** What a save hands to the insert *)

Lemma compoundLines_no_id acct k tax wh b d dt :
  Forall (λ e, e_id e = None) (compoundLines acct k tax wh b d dt).
Proof.
  unfold compoundLines. repeat case_decide; destruct tax, wh;
    repeat constructor.
Qed.

Lemma finishSave_Forall (P : Entry → Prop) l :
  Forall P l → Forall P (emittedLines (finishSave l)).
Proof. by rewrite finishSave_lines. Qed.

(** No line handed to the insert carries a transaction id, on the
    simplified path and on the manual path alike: a save from a modal
    opened for an edit is stored as new rows. *)
Theorem save_never_carries_id (isJurnalUmum : bool) (accounts : list Account)
    (es : list Entry) (options : option Options) :
  Forall (λ e, e_id e = None)
    (emittedLines (handleSaveTransaction isJurnalUmum accounts es options)).
Proof.
  assert (Hmanual : Forall (λ e, e_id e = None)
                      (emittedLines (finishSave (stripId <$> es)))).
  { apply finishSave_Forall, Forall_fmap, Forall_forall. by intros e _. }
  unfold handleSaveTransaction.
  destruct options as [o|]; [|exact Hmanual].
  destruct isJurnalUmum; [exact Hmanual|].
  destruct (truthy_num _); [|constructor].
  destruct (truthy_str (desc o)); [|constructor].
  destruct (truthy_str (o_date o)); [|constructor].
  destruct (truthy_str _) as [k|]; [|constructor].
  destruct (find_account accounts k); [|constructor].
  apply finishSave_Forall, compoundLines_no_id.
Qed.

(** For a complete entry of the simplified form, lines are handed to
    the insert exactly when the modal classifies the chosen account as
    income or expense; for an account of any other category the modal
    closes with nothing saved and no error, and for an id without an
    account the save reports that the account was not found. *)
Theorem simple_form_outcome (accounts : list Account) (accountId : string)
    (applyTax applyWithholding : bool) (amount : Qc) (description date : string) :
  amount ≠ 0 → description ≠ "" → date ≠ "" → accountId ≠ "" →
  let saved :=
    handleSaveTransaction false accounts (simpleEntry accountId)
      (Some (simpleOptions applyTax applyWithholding amount description date)) in
  match transactionNature accounts accountId with
  | Some nature_income =>
      ∃ lines, saved = SaveInsert lines
               ∧ length lines = if applyTax then 3%nat else 2%nat
  | Some nature_expense =>
      ∃ lines, saved = SaveInsert lines
               ∧ length lines = if applyWithholding then 3%nat else 2%nat
  | None =>
      match find_account accounts accountId with
      | Some _ => saved = SaveNothing
      | None => saved = SaveError notFoundMsg
      end
  end.
Proof.
  intros Ha Hd Hdt Hk saved. subst saved. unfold transactionNature.
  destruct (find_account accounts accountId) as [acct|] eqn:Hfind.
  - rewrite (handleSave_complete _ _ acct) by done. unfold compoundLines.
    destruct (decide (category acct = income));
      [|destruct (decide (category acct = expense))].
    + destruct applyTax; cbn; eauto.
    + destruct applyWithholding; cbn; eauto.
    + reflexivity.
  - unfold handleSaveTransaction, simpleOptions.
    cbn [baseAmount desc o_date kenaPpn potongPph23 truthy_num truthy_str
         truthy_flag simpleEntry head mbind option_bind e_accountId default
         from_option id].
    rewrite !decide_False by done. by rewrite Hfind.
Qed.

Lemma simple_form_outcome_witness :
  (∃ lines,
     handleSaveTransaction false ex_accounts (simpleEntry "4-4000")
       (Some (simpleOptions true true (Qc_of_Z 1000000) "Jasa" "2025-02-01"))
     = SaveInsert lines ∧ length lines = 3%nat)
  ∧ handleSaveTransaction false ex_accounts (simpleEntry "1-1130")
      (Some (simpleOptions true true (Qc_of_Z 1000000) "Jasa" "2025-02-01"))
    = SaveNothing.
Proof.
  split.
  - apply (simple_form_outcome ex_accounts "4-4000" true true (Qc_of_Z 1000000)
             "Jasa" "2025-02-01"); (vm_compute; discriminate) || discriminate.
  - apply (simple_form_outcome ex_accounts "1-1130" true true (Qc_of_Z 1000000)
             "Jasa" "2025-02-01"); (vm_compute; discriminate) || discriminate.
Defined.

(** The flag of the other nature is ignored: the withholding flag has
    no effect on an entry for an income account, nor the tax flag on one
    for an expense account. *)
Theorem simple_form_ignores_other_flag (accounts : list Account)
    (accountId : string) (acct : Account) (tax tax' wh wh' : bool)
    (amount : Qc) (description date : string) :
  find_account accounts accountId = Some acct →
  (category acct = income →
   handleSaveTransaction false accounts (simpleEntry accountId)
     (Some (simpleOptions tax wh amount description date))
   = handleSaveTransaction false accounts (simpleEntry accountId)
       (Some (simpleOptions tax wh' amount description date)))
  ∧ (category acct = expense →
     handleSaveTransaction false accounts (simpleEntry accountId)
       (Some (simpleOptions tax wh amount description date))
     = handleSaveTransaction false accounts (simpleEntry accountId)
         (Some (simpleOptions tax' wh amount description date))).
Proof.
  intros Hfind. unfold handleSaveTransaction, simpleOptions.
  cbn [baseAmount desc o_date kenaPpn potongPph23 truthy_flag simpleEntry
       head mbind option_bind e_accountId default from_option id].
  destruct (truthy_num _); [|done].
  destruct (truthy_str (Some description)); [|done].
  destruct (truthy_str (Some date)); [|done].
  destruct (truthy_str (Some accountId)) as [k|] eqn:Hk; [|done].
  assert (k = accountId) as ->.
  { unfold truthy_str in Hk. case_decide; congruence. }
  rewrite Hfind. unfold compoundLines. split; intros Hcat.
  - by rewrite !decide_True by done.
  - rewrite !(decide_False (P := category acct = income))
      by (rewrite Hcat; discriminate).
    by rewrite !decide_True by done.
Qed.

Lemma simple_form_ignores_other_flag_witness :
  handleSaveTransaction false ex_accounts (simpleEntry "4-4000")
    (Some (simpleOptions true true (Qc_of_Z 1000000) "Jasa" "2025-02-01"))
  = handleSaveTransaction false ex_accounts (simpleEntry "4-4000")
      (Some (simpleOptions true false (Qc_of_Z 1000000) "Jasa" "2025-02-01"))
  ∧ handleSaveTransaction false ex_accounts (simpleEntry "6-1000")
      (Some (simpleOptions true false (Qc_of_Z 300000) "Sewa" "2025-03-01"))
    = handleSaveTransaction false ex_accounts (simpleEntry "6-1000")
        (Some (simpleOptions false false (Qc_of_Z 300000) "Sewa" "2025-03-01")).
Proof.
  split.
  - apply (proj1 (simple_form_ignores_other_flag ex_accounts "4-4000"
                    ex_pendapatan true true true false (Qc_of_Z 1000000)
                    "Jasa" "2025-02-01" eq_refl)).
    reflexivity.
  - apply (proj2 (simple_form_ignores_other_flag ex_accounts "6-1000"
                    ex_beban true false false false (Qc_of_Z 300000)
                    "Sewa" "2025-03-01" eq_refl)).
    reflexivity.
Defined.

(** Every account that the selector of the simplified form offers is
    one for which a complete entry is saved: with unique ids, the save
    hands two or three lines to the insert. *)
Theorem simple_form_selector_sound (accounts : list Account) (a : Account)
    (applyTax applyWithholding : bool) (amount : Qc) (description date : string) :
  NoDup (acc_id <$> accounts) → a ∈ simpleFormAccounts accounts →
  amount ≠ 0 → description ≠ "" → date ≠ "" → acc_id a ≠ "" →
  is_Some (transactionNature accounts (acc_id a))
  ∧ ∃ lines,
      handleSaveTransaction false accounts (simpleEntry (acc_id a))
        (Some (simpleOptions applyTax applyWithholding amount description date))
      = SaveInsert lines
      ∧ (2 ≤ length lines ≤ 3)%nat.
Proof.
  intros Hnd Ha Hamt Hd Hdt Hk.
  apply list_elem_of_filter in Ha as [Hcat Ha].
  pose proof (find_account_unique _ _ Hnd Ha) as Hfind.
  rewrite (handleSave_complete _ _ a) by done.
  unfold transactionNature, compoundLines. rewrite Hfind.
  destruct (decide (category a = income));
    [|destruct (decide (category a = expense)); [|tauto]].
  - split; [eauto|]. destruct applyTax; cbn; eexists; (split; [done|cbn; lia]).
  - split; [eauto|]. destruct applyWithholding; cbn; eexists;
      (split; [done|cbn; lia]).
Qed.

Lemma simple_form_selector_sound_witness :
  ∃ lines,
    handleSaveTransaction false ex_accounts (simpleEntry "6-1000")
      (Some (simpleOptions false true (Qc_of_Z 300000) "Sewa" "2025-03-01"))
    = SaveInsert lines ∧ (2 ≤ length lines ≤ 3)%nat.
Proof.
  apply (simple_form_selector_sound ex_accounts ex_beban false true
           (Qc_of_Z 300000) "Sewa" "2025-03-01").
  - apply (bool_decide_unpack _). vm_compute. exact I.
  - apply list_elem_of_filter. split; [by right|].
    unfold ex_accounts. do 3 apply elem_of_cons, or_intror.
    apply elem_of_cons. by left.
  - vm_compute. discriminate.
  - discriminate.
  - discriminate.
  - discriminate.
Defined.

(** ** Rows of the manual form *)

Lemma removeEntry_offset (n j : nat) (es : list Entry) :
  snd <$> filter (λ p, p.1 ≠ j) (imap (λ i e, ((n + i)%nat, e)) es)
  = if decide (j < n)%nat then es else delete (j - n)%nat es.
Proof.
  revert n. induction es as [|e es IH]; intros n.
  - by case_decide.
  - rewrite imap_cons, filter_cons. cbn [fst].
    rewrite (imap_ext _ (λ i e, ((S n + i)%nat, e))) by (intros; cbn; f_equal; lia).
    specialize (IH (S n)).
    destruct (decide (j < n)%nat) as [Hlt|Hge].
    + rewrite decide_True by lia. rewrite fmap_cons, IH.
      by rewrite decide_True by lia.
    + destruct (decide (j = n)) as [->|Hne].
      * rewrite decide_False by lia. rewrite IH, decide_True by lia.
        by replace (n - n)%nat with 0%nat by lia.
      * rewrite decide_True by lia. rewrite fmap_cons, IH.
        rewrite decide_False by lia.
        by replace (j - n)%nat with (S (j - S n)) by lia.
Qed.

(** Removing a row takes out the row at the index and nothing else (no
    row when the index is out of range); removing the row just added
    gives the rows back. *)
Theorem removeEntry_spec (index : nat) (es : list Entry) :
  removeEntry index es = take index es ++ drop (S index) es
  ∧ (length es ≤ index → removeEntry index es = es)%nat
  ∧ removeEntry (length es) (addEntry es) = es.
Proof.
  assert (Hdel : ∀ j l, removeEntry j l = delete j l).
  { intros j l. unfold removeEntry.
    rewrite (imap_ext _ (λ i e, ((0 + i)%nat, e))) by done.
    rewrite removeEntry_offset. rewrite decide_False by lia.
    by replace (j - 0)%nat with j by lia. }
  rewrite !Hdel. split; [apply delete_take_drop|]. split.
  - intros Hle. rewrite delete_take_drop.
    rewrite take_ge, drop_ge by lia. by rewrite app_nil_r.
  - unfold addEntry. rewrite delete_take_drop.
    rewrite take_app_length, drop_ge; [by rewrite app_nil_r|].
    rewrite length_app. cbn. lia.
Qed.

Lemma removeEntry_spec_witness :
  removeEntry 5 [ex_entry "1-1130" debit 1; ex_entry "3-1000" credit 1]
  = [ex_entry "1-1130" debit 1; ex_entry "3-1000" credit 1].
Proof.
  destruct (removeEntry_spec 5 [ex_entry "1-1130" debit 1;
                                ex_entry "3-1000" credit 1]) as (_ & H2 & _).
  apply H2. cbn. lia.
Defined.

(** A row left empty does not count in either total, so it does not
    change what the manual form accepts; it is submitted with the other
    rows and handed to the insert without account, type or amount. *)
Theorem empty_row_is_submitted (accounts : list Account) (st : ModalState) :
  let st' :=
    {| entries := addEntry (entries st);
       commonDesc := commonDesc st; commonDate := commonDate st;
       simpleDesc := simpleDesc st; simpleAmount := simpleAmount st;
       simpleDate := simpleDate st; simpleAccountId := simpleAccountId st;
       st_kenaPpn := st_kenaPpn st; st_potongPph23 := st_potongPph23 st |} in
  (∀ t, entriesTotal t (entries st') = entriesTotal t (entries st))
  ∧ (∀ lines, saveFromModal true accounts st = SaveInsert lines →
       saveFromModal true accounts st'
       = SaveInsert
           (lines ++ [{| e_id := None; e_date := Some (commonDate st);
                         e_description := Some (commonDesc st);
                         e_accountId := None; e_type := None;
                         e_amount := None |}])).
Proof.
  intros st'.
  assert (Htot : ∀ t, entriesTotal t (entries st') = entriesTotal t (entries st)).
  { intros t. subst st'. cbn [entries]. unfold addEntry, entriesTotal.
    rewrite !reduce_sum_sumQc, filter_app, fmap_app, sumQc_app.
    rewrite filter_cons_False by done. rewrite filter_nil. sum_norm. ring. }
  split; [exact Htot|]. intros lines.
  unfold saveFromModal. rewrite !handleSubmit_manual, !Htot.
  case_decide; [done|]. subst st'. cbn [entries commonDesc commonDate].
  unfold addEntry. rewrite !fmap_app. cbn [handleSaveTransaction].
  destruct (entries st) as [|e es]; [done|].
  rewrite !fmap_cons. cbn [finishSave app]. intros [= <-].
  rewrite fmap_cons, fmap_app, fmap_cons, !fmap_nil. reflexivity.
Qed.

Lemma empty_row_is_submitted_witness :
  saveFromModal true ex_accounts_plain
    (ex_state (addEntry [ex_entry "1-1130" debit 2000000;
                         ex_entry "3-1000" credit 2000000]))
  = SaveInsert
      ((stripId <$> (completeEntry "Setoran modal" "2025-01-05"
          <$> [ex_entry "1-1130" debit 2000000; ex_entry "3-1000" credit 2000000]))
       ++ [{| e_id := None; e_date := Some "2025-01-05";
              e_description := Some "Setoran modal";
              e_accountId := None; e_type := None; e_amount := None |}]).
Proof.
  apply (proj2 (empty_row_is_submitted ex_accounts_plain
                  (ex_state [ex_entry "1-1130" debit 2000000;
                             ex_entry "3-1000" credit 2000000]))).
  vm_compute. reflexivity.
Defined.

(** ** The columns of the trial balance *)

Lemma sumQc_filter_indicator {A} (Q : A → Prop) `{∀ x, Decision (Q x)}
    (f : A → Qc) (l : list A) :
  sumQc (f <$> filter Q l) = sumQc ((λ x, if decide (Q x) then f x else 0) <$> l).
Proof.
  induction l as [|x l IH]; [done|]. rewrite filter_cons. sum_norm.
  destruct (decide (Q x)); sum_norm; rewrite IH; ring.
Qed.

Lemma sumQc_filter_irrelevant {A} (P : A → Prop) `{∀ x, Decision (P x)}
    (f : A → Qc) (l : list A) :
  (∀ x, x ∈ l → ¬ P x → f x = 0) →
  sumQc (f <$> filter P l) = sumQc (f <$> l).
Proof.
  intros Hf. induction l as [|x l IH]; [done|]. rewrite filter_cons. sum_norm.
  assert (IH' : sumQc (f <$> filter P l) = sumQc (f <$> l)).
  { apply IH. intros y Hy. apply Hf. by right. }
  destruct (decide (P x)) as [|Hx]; sum_norm; rewrite IH'; [done|].
  rewrite (Hf x) by (by left || done). ring.
Qed.

(** With unique ids, a sum over the accounts of sums over their own
    transactions is a sum over the transactions with a known account. *)
Lemma sum_over_accounts_by_tx (h : Transaction → Qc) (accounts : list Account)
    (txs : list Transaction) :
  NoDup (acc_id <$> accounts) →
  sumQc ((λ a, sumQc (h <$> filter (λ tx, accountId tx = acc_id a) txs)) <$> accounts)
  = sumQc ((λ tx, if decide (is_Some (find_account accounts (accountId tx)))
                  then h tx else 0) <$> txs).
Proof.
  intros Hnd. induction txs as [|tx txs IH].
  - sum_norm. by apply sumQc_fmap_zero.
  - sum_norm. rewrite <-IH.
    rewrite (sumQc_fmap_ext _
      (λ a, (if decide (acc_id a = accountId tx) then h tx else 0)
            + sumQc (h <$> filter (λ tx, accountId tx = acc_id a) txs))).
    + rewrite (sumQc_fmap_plus
                 (λ a, if decide (acc_id a = accountId tx) then h tx else 0)).
      f_equal.
      pose proof (sumQc_pick_account (λ _, True) (λ _, h tx) accounts
                    (accountId tx) Hnd) as Hp.
      rewrite (sumQc_filter_irrelevant (λ _, True)) in Hp by done.
      rewrite Hp. destruct (find_account accounts (accountId tx)).
      * rewrite decide_True by done. by rewrite decide_True by eauto.
      * rewrite decide_False; [done|]. by intros [? ?].
    + intros a _. rewrite filter_cons.
      destruct (decide (accountId tx = acc_id a)) as [Heq|Hne].
      * rewrite decide_True by done. by sum_norm.
      * rewrite decide_False by done. ring.
Qed.

Section TrialBalanceColumns.

Variable Date_getTime : string → option Z.
Variable company : Company.

Let startDate := Date_getTime (template (fiscalYearStart company) +:+ "T00:00:00").
Let inPeriod (t : TransactionType) (tx : Transaction) : Prop :=
  ¬ datedBefore Date_getTime startDate tx ∧ type tx = t.

Lemma summaryRow_totals txs a :
  LedgerSummaryData.totalDebit (summaryRow Date_getTime company txs a)
  = sumQc (amount <$> filter (inPeriod debit)
                        (filter (λ tx, accountId tx = acc_id a) txs))
  ∧ LedgerSummaryData.totalCredit (summaryRow Date_getTime company txs a)
    = sumQc (amount <$> filter (inPeriod credit)
                          (filter (λ tx, accountId tx = acc_id a) txs)).
Proof.
  unfold summaryRow, inPeriod, startDate. rewrite foldl_splitStep. cbn.
  split; apply Qcplus_0_l.
Qed.

Lemma column_sum (t : TransactionType) (col : LedgerSummaryData.t → Qc)
    (accounts : list Account) (txs : list Transaction) :
  (∀ a, col (summaryRow Date_getTime company txs a)
        = sumQc (amount <$> filter (inPeriod t)
                              (filter (λ tx, accountId tx = acc_id a) txs))) →
  NoDup (acc_id <$> accounts) →
  (∀ tx, tx ∈ txs → is_Some (find_account accounts (accountId tx))) →
  sumQc (col <$> summaryData Date_getTime company txs accounts)
  = sumQc (amount <$> filter (inPeriod t) txs).
Proof.
  intros Hcol Hnd Hknown. unfold summaryData. rewrite <-list_fmap_compose.
  rewrite (sumQc_fmap_ext _
    (λ a, sumQc ((λ tx, if decide (inPeriod t tx) then amount tx else 0)
                   <$> filter (λ tx, accountId tx = acc_id a) txs))).
  2:{ intros a _. cbn. rewrite Hcol. apply sumQc_filter_indicator. }
  rewrite sumQc_filter_irrelevant.
  - rewrite sum_over_accounts_by_tx by done.
    rewrite sumQc_filter_indicator. apply sumQc_fmap_ext.
    intros tx Htx. by rewrite decide_True by auto.
  - intros a _ Hno. rewrite filter_none; [done|].
    intros Hex. apply Hno. by right.
Qed.

End TrialBalanceColumns.

(** The columns of the trial balance on the exact figures.  With unique
    ids and every transaction on a known account, the debit column of
    the all-accounts summary adds up to the debit amounts of all transactions that are
    not dated before the fiscal-year start, and the credit column to
    their credit amounts: when the movements of the period are in
    balance, so are the two columns. *)
Lemma trial_balance_columns_exact (Date_getTime : string → option Z)
    (company : Company) (accounts : list Account) (txs : list Transaction) :
  NoDup (acc_id <$> accounts) →
  (∀ tx, tx ∈ txs → is_Some (find_account accounts (accountId tx))) →
  let startDate := Date_getTime (template (fiscalYearStart company) +:+ "T00:00:00") in
  let rows := summaryData Date_getTime company txs accounts in
  sumQc (LedgerSummaryData.totalDebit <$> rows)
  = sumQc (amount <$> filter (λ tx, ¬ datedBefore Date_getTime startDate tx
                                    ∧ type tx = debit) txs)
  ∧ sumQc (LedgerSummaryData.totalCredit <$> rows)
    = sumQc (amount <$> filter (λ tx, ¬ datedBefore Date_getTime startDate tx
                                      ∧ type tx = credit) txs).
Proof.
  intros Hnd Hknown startDate rows. subst rows. split.
  - apply (column_sum Date_getTime company debit); [|done|done].
    intros a. apply summaryRow_totals.
  - apply (column_sum Date_getTime company credit); [|done|done].
    intros a. apply summaryRow_totals.
Qed.

(** ** Opening the edit modal on a saved compound entry *)











(** ** Accounts that no transaction uses *)

(** An account whose delete button is enabled, that is, one that no
    transaction references, has a zero balance in the statements and
    an empty ledger, and its trial-balance row, which it has only for a
    non-zero beginning balance, ends on the beginning balance. *)
Theorem unused_account (Date_getTime : string → option Z) (company : Company)
    (accounts : list Account) (txs : list Transaction) (a : Account) :
  a ∈ accounts → ¬ isAccountInUse txs (acc_id a) →
  accountBalances accounts txs !! acc_id a = Some 0
  ∧ accountLedger Date_getTime txs accounts (acc_id a) = []
  ∧ LedgerSummaryData.endingBalance (summaryRow Date_getTime company txs a)
    = beginningBalance a
  ∧ (summaryRow Date_getTime company txs a
       ∈ summaryData Date_getTime company txs accounts
     → beginningBalance a ≠ 0).
Proof.
  intros Ha Hno. unfold isAccountInUse in Hno.
  assert (Hown : filter (λ tx, accountId tx = acc_id a) txs = [])
    by (by apply filter_none).
  destruct (find_account accounts (acc_id a)) as [a'|] eqn:Hfind.
  2:{ exfalso. rewrite find_account_None in Hfind. by apply (Hfind a Ha). }
  repeat split.
  - rewrite accountBalances_lookup, Hfind. cbn. by rewrite Hown.
  - unfold accountLedger. by rewrite Hfind, Hown.
  - rewrite summaryRow_endingBalance, Hown. sum_norm. ring.
  - unfold summaryData. intros Hrow Hz.
    apply list_elem_of_fmap in Hrow as (b & Heq & Hb).
    apply list_elem_of_filter in Hb as [Hp _].
    assert (Hid : acc_id a = acc_id b).
    { by rewrite <-!(summaryRow_accountId Date_getTime company txs), Heq. }
    assert (Hno' : ¬ Exists (λ tx, accountId tx = acc_id b) txs)
      by (by rewrite <-Hid).
    destruct Hp as [Hbb|?]; [|done]. apply Hbb.
    rewrite <-(summaryRow_untouched Date_getTime company txs b Hno'), <-Heq.
    by rewrite (summaryRow_untouched Date_getTime company txs a Hno).
Qed.

Lemma unused_account_witness :
  accountBalances ex_accounts ex_transactions !! "3-9999" = Some 0
  ∧ accountLedger ex_getTime ex_transactions ex_accounts "3-9999" = [].
Proof.
  destruct (unused_account ex_getTime ex_company ex_accounts ex_transactions
              ex_labaDitahan) as (H1 & H2 & _).
  - vm_compute. repeat constructor.
  - intros Hin. unfold isAccountInUse in Hin. apply Exists_exists in Hin
      as (tx & Htx & Hid). revert Hid. vm_compute in Htx.
    repeat (apply elem_of_cons in Htx as [->|Htx]; [vm_compute; discriminate|]).
    by apply elem_of_nil in Htx.
  - split; [exact H1|exact H2].
Defined.

(** ** The transaction table *)

Section ComparatorSort.

Context {A : Type} (cmp : A → A → Z).

Let le (x y : A) : Prop := (cmp x y ≤ 0)%Z.

Hypothesis le_trans : ∀ x y z, le x y → le y z → le x z.
Hypothesis le_flip : ∀ x y, ¬ le x y → le y x.

Lemma insertWith_Permutation x l : insertWith cmp x l ≡ₚ x :: l.
Proof.
  induction l as [|y l IH]; cbn [insertWith]; [done|].
  case_decide; [done|]. rewrite IH. apply Permutation_swap.
Qed.

Lemma sortWith_Permutation l : sortWith cmp l ≡ₚ l.
Proof.
  unfold sortWith. induction l as [|x l IH]; cbn [foldr]; [done|].
  by rewrite insertWith_Permutation, IH.
Qed.

Lemma insertWith_sorted x l :
  StronglySorted le l → StronglySorted le (insertWith cmp x l).
Proof.
  intros Hs. induction l as [|y l IH]; cbn [insertWith].
  - by repeat constructor.
  - apply StronglySorted_inv in Hs as [Hs Hyl]. case_decide as Hc.
    + constructor; [by constructor|]. constructor; [done|].
      rewrite Forall_forall in Hyl |- *. intros z Hz.
      apply (le_trans x y z); auto.
    + constructor; [by apply IH|]. rewrite insertWith_Permutation.
      constructor; [|done]. by apply le_flip.
Qed.

Lemma sortWith_sorted l : StronglySorted le (sortWith cmp l).
Proof.
  unfold sortWith. induction l as [|x l IH]; cbn [foldr]; [constructor|].
  by apply insertWith_sorted.
Qed.

(** Elements that the comparator does not tell apart keep their order. *)
Lemma insertWith_filter (P : A → Prop) `{∀ x, Decision (P x)} x l :
  (∀ y, P x → P y → le x y) →
  filter P (insertWith cmp x l) = filter P (x :: l).
Proof.
  intros HP. induction l as [|y l IH]; cbn [insertWith]; [done|].
  case_decide as Hc; [done|].
  rewrite filter_cons, IH, !filter_cons.
  destruct (decide (P y)) as [Hy|]; [|done].
  destruct (decide (P x)) as [Hx|]; [|done].
  exfalso. by apply Hc, HP.
Qed.

End ComparatorSort.

Lemma ascii_compare_Lt_trans (a b c : ascii) :
  Ascii.compare a b = Lt → Ascii.compare b c = Lt → Ascii.compare a c = Lt.
Proof.
  unfold Ascii.compare. rewrite !N.compare_lt_iff. lia.
Qed.

Lemma string_compare_Lt_trans (s1 s2 s3 : string) :
  String.compare s1 s2 = Lt → String.compare s2 s3 = Lt →
  String.compare s1 s3 = Lt.
Proof.
  revert s2 s3. induction s1 as [|a s1 IH]; intros [|b s2] [|c s3]; cbn;
    try done.
  destruct (Ascii.compare a b) eqn:Hab; try done;
    destruct (Ascii.compare b c) eqn:Hbc; try done; intros H12 H23.
  - apply Ascii.compare_eq_iff in Hab as ->. rewrite Hbc. by apply (IH s2).
  - apply Ascii.compare_eq_iff in Hab as ->. by rewrite Hbc.
  - apply Ascii.compare_eq_iff in Hbc as <-. by rewrite Hab.
  - by rewrite (ascii_compare_Lt_trans a b c).
Qed.

Lemma fieldCompare_antisym k a b :
  fieldCompare k b a = CompOpp (fieldCompare k a b).
Proof.
  destruct k; cbn; try apply String.compare_antisym.
  unfold Qccompare. symmetry. apply Qcompare_antisym.
Qed.

Lemma fieldCompare_Lt_trans k a b c :
  fieldCompare k a b = Lt → fieldCompare k b c = Lt → fieldCompare k a c = Lt.
Proof.
  destruct k; cbn; try apply string_compare_Lt_trans.
  rewrite <-!Qclt_alt. apply Qclt_trans.
Qed.

Lemma fieldCompare_Eq k a b c :
  fieldCompare k a b = Eq → fieldCompare k a c = fieldCompare k b c.
Proof.
  destruct k; cbn; intros Heq;
    try (apply String.compare_eq_iff in Heq; by rewrite Heq).
  apply Qceq_alt in Heq. by rewrite Heq.
Qed.

Lemma fieldCompare_Eq_r k a b c :
  fieldCompare k a b = Eq → fieldCompare k c a = fieldCompare k c b.
Proof.
  intros Heq. rewrite (fieldCompare_antisym k a c), (fieldCompare_antisym k b c).
  by rewrite (fieldCompare_Eq k a b c).
Qed.

Lemma fieldCompare_not_Gt_trans k a b c :
  fieldCompare k a b ≠ Gt → fieldCompare k b c ≠ Gt → fieldCompare k a c ≠ Gt.
Proof.
  intros Hab Hbc.
  destruct (fieldCompare k a b) eqn:H1; [| |done].
  - by rewrite (fieldCompare_Eq k a b c H1).
  - destruct (fieldCompare k b c) eqn:H2; [| |done].
    + by rewrite <-(fieldCompare_Eq_r k b c a H2), H1.
    + by rewrite (fieldCompare_Lt_trans k a b c H1 H2).
Qed.

Lemma tableCompare_le cfg a b :
  (tableCompare cfg a b ≤ 0)%Z
  ↔ if decide (direction cfg = dir_asc)
    then fieldCompare (key cfg) a b ≠ Gt
    else fieldCompare (key cfg) b a ≠ Gt.
Proof.
  unfold tableCompare. rewrite (fieldCompare_antisym (key cfg) a b).
  destruct (fieldCompare (key cfg) a b); case_decide; cbn; split;
    try done; try lia.
Qed.

Lemma tableCompare_trans cfg x y z :
  (tableCompare cfg x y ≤ 0)%Z → (tableCompare cfg y z ≤ 0)%Z →
  (tableCompare cfg x z ≤ 0)%Z.
Proof.
  rewrite !tableCompare_le. case_decide.
  - apply fieldCompare_not_Gt_trans.
  - intros Hyx Hzy. by apply (fieldCompare_not_Gt_trans _ z y x).
Qed.

Lemma tableCompare_flip cfg x y :
  ¬ (tableCompare cfg x y ≤ 0)%Z → (tableCompare cfg y x ≤ 0)%Z.
Proof.
  rewrite !tableCompare_le. case_decide.
  - rewrite (fieldCompare_antisym _ x y).
    destruct (fieldCompare (key cfg) x y); cbn; [done| |done].
    intros Hn. by destruct Hn.
  - rewrite (fieldCompare_antisym _ y x).
    destruct (fieldCompare (key cfg) y x); cbn; [done| |done].
    intros Hn. by destruct Hn.
Qed.

Lemma fieldCompare_fieldLe k a b : fieldCompare k a b ≠ Gt → fieldLe k a b.
Proof.
  destruct k; cbn; try done.
  destruct (type a), (type b); cbn; intros H; auto. by destruct H.
Qed.

Lemma string_compare_refl (s : string) : (s ?= s)%string = Eq.
Proof.
  induction s as [|c s IH]; [done|]. cbn.
  unfold Ascii.compare. by rewrite N.compare_refl.
Qed.

Lemma string_compare_Eq (s1 s2 : string) : (s1 ?= s2)%string = Eq ↔ s1 = s2.
Proof.
  split; [apply String.compare_eq_iff|]. intros ->. apply string_compare_refl.
Qed.

Lemma fieldCompare_fieldEq k a b : fieldCompare k a b = Eq ↔ fieldEq k a b.
Proof.
  destruct k; cbn; try exact (string_compare_Eq _ _).
  - destruct (type a), (type b); split; intros H; try done;
      vm_compute in H; discriminate.
  - split; [apply Qceq_alt|]. intros ->. apply Qceq_alt. reflexivity.
Qed.

(** The table shows every transaction exactly once.  With a sort
    configuration its rows are in the order of the chosen column:
    ascending, each row's field is at most that of every later row,
    and descending, at least; rows that agree on the column keep the
    order in which they were fetched.  Without a configuration the rows
    stay as fetched.  The strings are taken to be of characters below
    128, where the order of the characters is the one that [<] and [>]
    of the source compare by. *)
Theorem sortedTransactions_spec (cfg : SortConfig) (txs : list Transaction) :
  Forall asciiFields txs →
  let rows := sortedTransactions (Some cfg) txs in
  rows ≡ₚ txs
  ∧ StronglySorted
      (λ a b, match direction cfg with
              | dir_asc => fieldLe (key cfg) a b
              | dir_desc => fieldLe (key cfg) b a
              end) rows
  ∧ (∀ x, filter (fieldEq (key cfg) x) rows = filter (fieldEq (key cfg) x) txs)
  ∧ sortedTransactions None txs = txs.
Proof.
  intros _ rows. subst rows. cbn [sortedTransactions].
  split; [apply sortWith_Permutation|]. split; [|split; [|done]].
  - apply (StronglySorted_weaken (λ a b, (tableCompare cfg a b ≤ 0)%Z) _ (λ _, True)).
    + intros a b _ _ Hc. apply tableCompare_le in Hc.
      destruct (direction cfg); [rewrite decide_True in Hc by done
                                |rewrite decide_False in Hc by done];
        by apply fieldCompare_fieldLe.
    + by apply Forall_forall.
    + apply sortWith_sorted; [apply tableCompare_trans|apply tableCompare_flip].
  - intros x.
    rewrite <-!(list_filter_iff (λ y, fieldCompare (key cfg) x y = Eq)
                  (fieldEq (key cfg) x)) by (intros y; apply fieldCompare_fieldEq).
    unfold sortWith. induction txs as [|t txs IH]; [done|]. cbn [foldr].
    rewrite insertWith_filter.
    + rewrite !filter_cons. by rewrite IH.
    + intros y Ht Hy. unfold tableCompare.
      rewrite <-(fieldCompare_Eq (key cfg) x t y Ht), Hy. done.
Qed.

(** The table as it opens, newest first: no row is followed by one of a
    later date. *)
Lemma sortedTransactions_spec_witness :
  StronglySorted (λ a b, (date b ?= date a)%string ≠ Gt)
    (sortedTransactions (Some {| key := key_date; direction := dir_desc |})
       ex_transactions).
Proof.
  apply (sortedTransactions_spec {| key := key_date; direction := dir_desc |}
           ex_transactions).
  apply (bool_decide_unpack _). vm_compute. exact I.
Defined.

(** A request for a column sorts by that column, ascending unless the
    table was already sorted ascending by it; a second request for the
    same column reverses the direction. *)
Theorem requestSort_toggle (k : SortKey) (prev : option SortConfig) :
  ∃ cfg cfg',
    requestSort k prev = Some cfg
    ∧ requestSort k (Some cfg) = Some cfg'
    ∧ key cfg = k ∧ key cfg' = k
    ∧ direction cfg' ≠ direction cfg
    ∧ (direction cfg = dir_desc
       ↔ ∃ p, prev = Some p ∧ key p = k ∧ direction p = dir_asc).
Proof.
  unfold requestSort. do 2 eexists. split; [reflexivity|]. split; [reflexivity|].
  cbn [key direction]. split; [done|]. split; [done|].
  destruct prev as [[pk pd]|]; cbn [key direction].
  - destruct (decide (pk = k ∧ pd = dir_asc)) as [[-> ->]|Hn].
    + rewrite decide_False by (intros [_ ?]; done). split; [done|].
      split; [eauto|done].
    + rewrite decide_True by done. split; [done|]. split; [done|].
      intros (p & [= <-] & Hk & Hd). by destruct Hn.
  - rewrite decide_True by done. split; [done|]. split; [done|].
    by intros (p & ? & _).
Qed.

(** ** The monthly chart of the dashboard *)


Section ChartProperties.

Variable monthLabel : string → string.
Variable accounts : list Account.



End ChartProperties.


(** * Binary64 *)

(** ** Rounding *)

Lemma pow2_pos k : (0 < B64.pow2 k)%Q.
Proof. apply Qpower_0_lt. reflexivity. Qed.

Lemma pow2_neq0 k : ¬ (B64.pow2 k == 0)%Q.
Proof. pose proof (pow2_pos k). lra. Qed.

Lemma pow2_add a b : (B64.pow2 (a + b) == B64.pow2 a * B64.pow2 b)%Q.
Proof. apply Qpower_plus. discriminate. Qed.


Lemma pow2_Z k : (0 ≤ k)%Z → (B64.pow2 k == inject_Z (2 ^ k))%Q.
Proof. intros H. symmetry. exact (Zpower_Qpower 2 k H). Qed.

Lemma pow2_split a b : (B64.pow2 a == B64.pow2 (a - b) * B64.pow2 b)%Q.
Proof. rewrite <-pow2_add. by replace (a - b + b)%Z with a by lia. Qed.

Lemma floor_log2_spec (q : Q) :
  (0 < q)%Q →
  (B64.pow2 (B64.floor_log2 q) <= q)%Q ∧ (q < B64.pow2 (B64.floor_log2 q + 1))%Q.
Proof.
  intros Hq. unfold B64.floor_log2. destruct q as [a b]. cbn [Qnum Qden].
  assert (Ha : (0 < a)%Z).
  { unfold Qlt in Hq. cbn in Hq. lia. }
  destruct (Z.log2_spec a Ha) as [Ha1 Ha2].
  destruct (Z.log2_spec (Zpos b) eq_refl) as [Hb1 Hb2].
  pose proof (Z.log2_nonneg a) as Hla.
  pose proof (Z.log2_nonneg (Zpos b)) as Hlb.
  set (la := Z.log2 a) in *. set (lb := Z.log2 (Zpos b)) in *.
  assert (Hq' : ((a # b) * inject_Z (Zpos b) == inject_Z a)%Q).
  { unfold Qeq. cbn. lia. }
  assert (HB : (0 < inject_Z (Zpos b))%Q) by reflexivity.
  assert (HA1 : (B64.pow2 la <= inject_Z a)%Q).
  { rewrite pow2_Z by done. by rewrite <-Zle_Qle. }
  assert (HA2 : (inject_Z a < B64.pow2 (la + 1))%Q).
  { rewrite pow2_Z by lia. rewrite <-Zlt_Qlt. by rewrite <-Z.add_1_r in Ha2. }
  assert (HB1 : (B64.pow2 lb <= inject_Z (Zpos b))%Q).
  { rewrite pow2_Z by done. by rewrite <-Zle_Qle. }
  assert (HB2 : (inject_Z (Zpos b) < B64.pow2 (lb + 1))%Q).
  { rewrite pow2_Z by lia. rewrite <-Zlt_Qlt. by rewrite <-Z.add_1_r in Hb2. }
  destruct (Qle_bool (B64.pow2 (la - lb)) (a # b)) eqn:E.
  - apply Qle_bool_iff in E. split; [exact E|].
    pose proof (pow2_split (la + 1) lb) as Hs.
    replace (la + 1 - lb)%Z with (la - lb + 1)%Z in Hs by lia.
    pose proof (pow2_pos (la - lb + 1)) as Hp.
    apply (Qmult_lt_r _ _ _ HB). rewrite Hq'.
    eapply Qlt_le_trans; [exact HA2|]. rewrite Hs.
    apply Qmult_le_l; [exact Hp|exact HB1].
  - assert (E' : ¬ (B64.pow2 (la - lb) <= a # b)%Q).
    { intros H. apply Qle_bool_iff in H. congruence. }
    apply Qnot_le_lt in E'. split.
    + pose proof (pow2_split la (lb + 1)) as Hs.
      replace (la - (lb + 1))%Z with (la - lb - 1)%Z in Hs by lia.
      pose proof (pow2_pos (la - lb - 1)) as Hp.
      apply (Qmult_le_r _ _ _ HB). rewrite Hq'.
      eapply Qle_trans; [|exact HA1]. rewrite Hs.
      apply Qmult_le_l; [exact Hp|]. by apply Qlt_le_weak.
    + by replace (la - lb - 1 + 1)%Z with (la - lb)%Z by lia.
Qed.


Lemma rnd_even_near (x : Q) (n : Z) :
  (inject_Z n <= x)%Q → (x < inject_Z n + (1 # 2))%Q → B64.rnd_even x = n.
Proof.
  intros H1 H2. unfold B64.rnd_even.
  assert (Hf : Qfloor x = n).
  { pose proof (Qfloor_le x) as Hl. pose proof (Qlt_floor x) as Hu.
    assert (Hn1 : (n ≤ Qfloor x)%Z).
    { rewrite <-(Qfloor_Z n). by apply Qfloor_resp_le. }
    assert (Hn2 : (Qfloor x < n + 1)%Z).
    { rewrite Zlt_Qlt, inject_Z_plus. rewrite inject_Z_plus in Hu.
      change (inject_Z 1) with 1%Q in *. lra. }
    lia. }
  rewrite Hf.
  assert (Hc : (x - inject_Z n ?= 1 # 2)%Q = Lt).
  { apply (proj1 (Qlt_alt _ _)). lra. }
  by rewrite Hc.
Qed.

Lemma rnd_even_eq (x : Q) (n : Z) : (x == inject_Z n)%Q → B64.rnd_even x = n.
Proof.
  intros H. apply rnd_even_near; rewrite H; generalize (inject_Z n); intros y; lra.
Qed.

Lemma Qabs_inject_Z (m : Z) : (Qabs (inject_Z m) == inject_Z (Z.abs m))%Q.
Proof. reflexivity. Qed.

(** A number [m * 2^e] with less than 53 bits in [m], and [e] not below
    the least exponent, is a binary64 number: rounding leaves it as it
    is. *)
Lemma round64_representable (q : Qc) (m e : Z) :
  (q == inject_Z m * B64.pow2 e)%Q → (Z.abs m < 2 ^ 53)%Z → (-1074 ≤ e)%Z →
  B64.round64 q = q.
Proof.
  intros Hq Hm He. unfold B64.round64. case_decide as H0; [done|].
  assert (Hm0 : m ≠ 0%Z).
  { intros ->. apply H0, Qc_is_canon. rewrite Hq.
    change (0 * B64.pow2 e == 0)%Q. ring. }
  pose proof (pow2_pos e) as Hpe.
  assert (Habs : (Qabs q == inject_Z (Z.abs m) * B64.pow2 e)%Q).
  { rewrite Hq, Qabs_Qmult, Qabs_inject_Z. rewrite (Qabs_pos (B64.pow2 e)) by lra.
    reflexivity. }
  assert (Hpos : (0 < Qabs q)%Q).
  { rewrite Habs. apply Qmult_lt_0_compat; [|exact Hpe].
    replace 0%Q with (inject_Z 0) by reflexivity. rewrite <-Zlt_Qlt. lia. }
  destruct (floor_log2_spec _ Hpos) as [Hk _].
  set (k := B64.floor_log2 (Qabs q)) in *.
  assert (Hke : (k < 53 + e)%Z).
  { apply (Qpower_lt_compat_l_inv 2); [|reflexivity].
    fold (B64.pow2 k) (B64.pow2 (53 + e)). eapply Qle_lt_trans; [exact Hk|].
    rewrite Habs, pow2_add. apply Qmult_lt_r; [exact Hpe|].
    rewrite pow2_Z by lia. by rewrite <-Zlt_Qlt. }
  unfold B64.ulp_exp. fold k. set (E := Z.max (k - 52) (-1074)).
  assert (HE : (E ≤ e)%Z) by lia.
  pose proof (pow2_pos E) as HpE. pose proof (pow2_neq0 E) as HnE.
  assert (Hsc : (q / B64.pow2 E == inject_Z (m * 2 ^ (e - E)))%Q).
  { rewrite Hq, (pow2_split e E), inject_Z_mult, <-pow2_Z by lia. by field. }
  rewrite (rnd_even_eq _ _ Hsc).
  apply Qc_is_canon. cbn [this Q2Qc]. rewrite Qred_correct, Hq.
  rewrite (pow2_split e E), inject_Z_mult, <-pow2_Z by lia. ring.
Qed.

(** Whole numbers up to [2^53] in absolute value are binary64 numbers. *)
Lemma round64_Z (n : Z) :
  (Z.abs n ≤ 2 ^ 53)%Z → B64.round64 (Qc_of_Z n) = Qc_of_Z n.
Proof.
  intros Hn. change (2 ^ 53)%Z with 9007199254740992%Z in Hn.
  destruct (decide (Z.abs n = 9007199254740992)%Z) as [Heq|Hne].
  - assert (Hn2 : n = (2 ^ 52 * 2)%Z ∨ n = (- 2 ^ 52 * 2)%Z).
    { change (2 ^ 52)%Z with 4503599627370496%Z. lia. }
    destruct Hn2 as [-> | ->].
    + by apply (round64_representable _ (2 ^ 52) 1).
    + by apply (round64_representable _ (- 2 ^ 52) 1).
  - apply (round64_representable _ n 0);
      [|change (2 ^ 53)%Z with 9007199254740992%Z; lia|lia].
    change (inject_Z n == inject_Z n * 1)%Q. ring.
Qed.


(** ** Whole numbers *)

Lemma whole_Z (q : Qc) : whole q → q = Qc_of_Z (Qnum q).
Proof.
  destruct q as [[n d] Hc]. unfold whole. cbn. intros ->.
  by apply Qc_is_canon.
Qed.

Lemma whole_Qc_of_Z (n : Z) : whole (Qc_of_Z n).
Proof. reflexivity. Qed.

Lemma Qcabs_Qc_of_Z (n : Z) : Qcabs (Qc_of_Z n) = Qc_of_Z (Z.abs n).
Proof. by apply Qc_is_canon. Qed.

Lemma add_Z (a b : Z) :
  (Z.abs (a + b) ≤ 2 ^ 53)%Z → B64.add (Qc_of_Z a) (Qc_of_Z b) = Qc_of_Z (a + b).
Proof.
  intros H. unfold B64.add. rewrite <-Z2Qc_inj_add. by apply round64_Z.
Qed.

Lemma sub_Z (a b : Z) :
  (Z.abs (a - b) ≤ 2 ^ 53)%Z → B64.sub (Qc_of_Z a) (Qc_of_Z b) = Qc_of_Z (a - b).
Proof.
  intros H. unfold B64.sub. rewrite <-Z2Qc_inj_sub. by apply round64_Z.
Qed.

(** ** The rates *)






(** ** Compound entries *)










(** ** Whole amounts within the safe range *)

Lemma magnitudeSum_cons (q : Qc) (l : list Qc) :
  magnitudeSum (q :: l) = (Z.abs (Qnum q) + magnitudeSum l)%Z.
Proof. reflexivity. Qed.

Lemma whole_abs (q : Qc) : whole q → Qcabs q = Qc_of_Z (Z.abs (Qnum q)).
Proof. intros H. rewrite (whole_Z q H) at 1. apply Qcabs_Qc_of_Z. Qed.

Lemma sum_abs_whole (l : list Qc) :
  Forall whole l → sumQc (Qcabs <$> l) = Qc_of_Z (magnitudeSum l).
Proof.
  induction 1 as [|q l Hq _ IH]; [exact (eq_sym Z2Qc_inj_0)|].
  rewrite fmap_cons, sumQc_cons, IH, (whole_abs q Hq), magnitudeSum_cons.
  by rewrite Z2Qc_inj_add.
Qed.

Lemma magnitudeSum_nonneg (l : list Qc) : (0 ≤ magnitudeSum l)%Z.
Proof. induction l as [|q l IH]; [done|]. rewrite magnitudeSum_cons. lia. Qed.

Lemma magnitudeSum_Permutation (l l' : list Qc) :
  l ≡ₚ l' → magnitudeSum l = magnitudeSum l'.
Proof.
  induction 1; rewrite ?magnitudeSum_cons; lia.
Qed.

Lemma magnitudeSum_app (l l' : list Qc) :
  magnitudeSum (l ++ l') = (magnitudeSum l + magnitudeSum l')%Z.
Proof.
  induction l as [|q l IH]; [done|].
  rewrite <-app_comm_cons, !magnitudeSum_cons. lia.
Qed.

Lemma magnitudeSum_filter {A} (f : A → Qc) (P : A → Prop) `{∀ x, Decision (P x)}
    (l : list A) :
  (magnitudeSum (f <$> filter P l) ≤ magnitudeSum (f <$> l))%Z.
Proof.
  induction l as [|x l IH]; [done|]. rewrite filter_cons.
  pose proof (Z.abs_nonneg (Qnum (f x))).
  destruct (decide (P x)); rewrite ?fmap_cons, ?magnitudeSum_cons; lia.
Qed.

(** The bound as an inequality between integers. *)
Lemma whole_bound (b : Qc) (l : list Qc) :
  whole b → Forall whole l → Qcabs b + sumQc (Qcabs <$> l) <= maxSafe →
  (Z.abs (Qnum b) + magnitudeSum l ≤ 2 ^ 53)%Z.
Proof.
  intros Hb Hl. rewrite (whole_abs b Hb), (sum_abs_whole l Hl), <-Z2Qc_inj_add.
  unfold maxSafe. by rewrite <-Z2Qc_inj_le.
Qed.

Lemma amountChange_Z (a : Account) (tx : Transaction) :
  whole (amount tx) →
  ∃ n : Z, amountChange a tx = Qc_of_Z n ∧ Z.abs n = Z.abs (Qnum (amount tx)).
Proof.
  intros Hw. unfold amountChange. rewrite (whole_Z _ Hw). case_decide.
  - eexists. split; [reflexivity|]. reflexivity.
  - exists (- Qnum (amount tx))%Z. split; [by rewrite Z2Qc_inj_opp|].
    cbn. lia.
Qed.

(** ** The ledger in binary64 on whole amounts *)

Section LedgerWhole.

Variable Date_getTime : string → option Z.

(** On whole amounts within the safe range the loop of the summary row
    rounds nowhere. *)
Lemma B64_foldl_splitStep startDate account (l : list Transaction) :
  Forall (λ tx, whole (amount tx)) l →
  ∀ b d c : Z,
  (Z.abs b + Z.abs d + Z.abs c + magnitudeSum (amount <$> l) ≤ 2 ^ 53)%Z →
  ∃ b' d' c' : Z,
    foldl (B64.splitStep Date_getTime startDate account)
      (Qc_of_Z b, Qc_of_Z d, Qc_of_Z c) l
    = (Qc_of_Z b', Qc_of_Z d', Qc_of_Z c')
    ∧ foldl (splitStep Date_getTime startDate account)
        (Qc_of_Z b, Qc_of_Z d, Qc_of_Z c) l
      = (Qc_of_Z b', Qc_of_Z d', Qc_of_Z c')
    ∧ (Z.abs b' + Z.abs d' + Z.abs c'
       ≤ Z.abs b + Z.abs d + Z.abs c + magnitudeSum (amount <$> l))%Z.
Proof.
  induction 1 as [|tx l Hw _ IH]; intros b d c Hb.
  - exists b, d, c. cbn [foldl]. repeat split. cbn. lia.
  - rewrite fmap_cons, magnitudeSum_cons in Hb |- *.
    pose proof (magnitudeSum_nonneg (amount <$> l)) as Hnn.
    destruct (amountChange_Z account tx Hw) as (n & Hn & Hnabs).
    cbn [foldl]. unfold B64.splitStep at 2, splitStep at 2. rewrite Hn.
    destruct (date_lt _ _).
    + rewrite add_Z by lia. rewrite <-Z2Qc_inj_add.
      destruct (IH (b + n)%Z d c) as (b' & d' & c' & H1 & H2 & H3); [lia|].
      exists b', d', c'. split; [exact H1|]. split; [exact H2|]. lia.
    + pose proof (whole_Z _ Hw) as Hm. set (m := Qnum (amount tx)) in *.
      rewrite Hm. destruct (type tx).
      * rewrite !(decide_True (P := debit = debit)) by done.
        rewrite !(decide_False (P := debit = credit)) by done.
        rewrite add_Z by lia. rewrite <-Z2Qc_inj_add.
        destruct (IH b (d + m)%Z c)
          as (b' & d' & c' & H1 & H2 & H3); [lia|].
        exists b', d', c'. split; [exact H1|]. split; [exact H2|]. lia.
      * rewrite !(decide_False (P := credit = debit)) by done.
        rewrite !(decide_True (P := credit = credit)) by done.
        rewrite add_Z by lia. rewrite <-Z2Qc_inj_add.
        destruct (IH b d (c + m)%Z)
          as (b' & d' & c' & H1 & H2 & H3); [lia|].
        exists b', d', c'. split; [exact H1|]. split; [exact H2|]. lia.
Qed.

(** The summary row of an account with a whole beginning balance and
    whole amounts within the safe range is computed without rounding. *)
Lemma B64_summaryRow_whole company txs a :
  let own := filter (λ tx, accountId tx = acc_id a) txs in
  whole (beginningBalance a) → Forall (λ tx, whole (amount tx)) own →
  Qcabs (beginningBalance a) + sumQc (Qcabs <$> (amount <$> own)) <= maxSafe →
  B64.summaryRow Date_getTime company txs a = summaryRow Date_getTime company txs a.
Proof.
  intros own Hbb Hown Hbound.
  assert (Hz : (Z.abs (Qnum (beginningBalance a)) + magnitudeSum (amount <$> own)
                ≤ 2 ^ 53)%Z).
  { apply whole_bound; [exact Hbb| |exact Hbound]. by apply Forall_fmap. }
  unfold B64.summaryRow, summaryRow. fold own.
  rewrite (whole_Z _ Hbb). rewrite <-Z2Qc_inj_0.
  destruct (B64_foldl_splitStep
              (Date_getTime (template (fiscalYearStart company) +:+ "T00:00:00"))
              a own Hown (Qnum (beginningBalance a)) 0 0)
    as (b' & d' & c' & -> & -> & Hle); [lia|].
  replace (Z.abs 0) with 0%Z in Hle by reflexivity.
  pose proof (magnitudeSum_nonneg (amount <$> own)) as Hnn.
  case_decide.
  - rewrite sub_Z by lia. rewrite add_Z by lia.
    by rewrite Z2Qc_inj_add, Z2Qc_inj_sub.
  - rewrite sub_Z by lia. rewrite add_Z by lia.
    by rewrite Z2Qc_inj_add, Z2Qc_inj_sub.
Qed.

Lemma B64_runningEntries_whole account (l : list Transaction) :
  Forall (λ tx, whole (amount tx)) l →
  ∀ b : Z, (Z.abs b + magnitudeSum (amount <$> l) ≤ 2 ^ 53)%Z →
  B64.runningEntries account (Qc_of_Z b) l = runningEntries account (Qc_of_Z b) l.
Proof.
  induction 1 as [|tx l Hw _ IH]; intros b Hb; [done|].
  rewrite fmap_cons, magnitudeSum_cons in Hb.
  pose proof (magnitudeSum_nonneg (amount <$> l)) as Hnn.
  destruct (amountChange_Z account tx Hw) as (n & Hn & Hnabs).
  cbn [B64.runningEntries runningEntries]. rewrite Hn.
  rewrite add_Z by lia. rewrite <-Z2Qc_inj_add.
  rewrite IH by lia. reflexivity.
Qed.

Lemma B64_accountLedger_whole txs accounts a :
  let own := filter (λ tx, accountId tx = acc_id a) txs in
  find_account accounts (acc_id a) = Some a →
  whole (beginningBalance a) → Forall (λ tx, whole (amount tx)) own →
  Qcabs (beginningBalance a) + sumQc (Qcabs <$> (amount <$> own)) <= maxSafe →
  B64.accountLedger Date_getTime txs accounts (acc_id a)
  = accountLedger Date_getTime txs accounts (acc_id a).
Proof.
  intros own Hfind Hbb Hown Hbound.
  assert (Hz : (Z.abs (Qnum (beginningBalance a)) + magnitudeSum (amount <$> own)
                ≤ 2 ^ 53)%Z).
  { apply whole_bound; [exact Hbb| |exact Hbound]. by apply Forall_fmap. }
  unfold B64.accountLedger, accountLedger. rewrite Hfind. fold own.
  pose proof (sortByDate_Permutation Date_getTime own) as Hp.
  rewrite (whole_Z _ Hbb). apply B64_runningEntries_whole.
  - by rewrite Hp.
  - rewrite (magnitudeSum_Permutation _ (amount <$> own)); [exact Hz|].
    by apply fmap_Permutation.
Qed.

End LedgerWhole.

(** ** The two ledger views *)

(** C10 as stated fails in binary64.  Petty cash with a debit of 0.1, a
    credit of 0.3 and a debit of 0.2, all within the period: the
    summary adds the debits, 0.1 + 0.2, before it takes off the credit
    and ends at [2^-54] (5.55e-17); the ledger takes the movements one
    by one and ends at [2^-55] (2.78e-17). *)
Lemma C10_ledger_views_agree_counterexample :
  let accounts := ex_kasKecil :: nil in
  NoDup (acc_id <$> accounts)
  ∧ ex_kasKecil ∈ accounts
  ∧ LedgerSummaryData.endingBalance
      (B64.summaryRow ex_getTime ex_company ex_transactions_tenths ex_kasKecil)
    = Q2Qc (1 # 18014398509481984)
  ∧ default (beginningBalance ex_kasKecil)
      (last (balance <$> B64.accountLedger ex_getTime ex_transactions_tenths
                           accounts "1-1140"))
    = Q2Qc (1 # 36028797018963968)
  ∧ LedgerSummaryData.endingBalance
      (B64.summaryRow ex_getTime ex_company ex_transactions_tenths ex_kasKecil)
    ≠ default (beginningBalance ex_kasKecil)
        (last (balance <$> B64.accountLedger ex_getTime ex_transactions_tenths
                             accounts "1-1140")).
Proof.
  cbv zeta.
  assert (H1 : LedgerSummaryData.endingBalance
                 (B64.summaryRow ex_getTime ex_company ex_transactions_tenths
                    ex_kasKecil)
               = Q2Qc (1 # 18014398509481984)).
  { apply Qc_is_canon. vm_compute. reflexivity. }
  assert (H2 : default (beginningBalance ex_kasKecil)
                 (last (balance <$> B64.accountLedger ex_getTime
                                      ex_transactions_tenths (ex_kasKecil :: nil)
                                      "1-1140"))
               = Q2Qc (1 # 36028797018963968)).
  { apply Qc_is_canon. vm_compute. reflexivity. }
  rewrite H1, H2. split.
  { apply (bool_decide_unpack _). vm_compute. exact I. }
  split; [apply elem_of_cons; by left|].
  split; [reflexivity|]. split; [reflexivity|].
  intros H. apply (f_equal this) in H. vm_compute in H. discriminate.
Qed.

(** C10 (amended).  The two ledger views agree on whole amounts.  For
    an account of a directory with unique ids whose beginning balance
    and amounts are whole numbers that add up, in absolute value, to at
    most [2^53], and for any fiscal-year start, the ending balance of
    the account's trial-balance row, as computed in binary64, is the
    beginning balance plus the sum of the sign-adjusted amounts of all
    its transactions, before the period and within it alike; the
    single-account ledger lists exactly those transactions, and its
    last running balance (the beginning balance when there is no
    transaction) is that same amount.  The selector shows this ledger
    for every account id but the empty one and [all]. *)
Theorem C10_ledger_views_agree (Date_getTime : string → option Z)
    (company : Company) (txs : list Transaction) (accounts : list Account)
    (a : Account) :
  NoDup (acc_id <$> accounts) → a ∈ accounts →
  let own := filter (λ tx, accountId tx = acc_id a) txs in
  whole (beginningBalance a) → Forall (λ tx, whole (amount tx)) own →
  Qcabs (beginningBalance a) + sumQc (Qcabs <$> (amount <$> own)) <= maxSafe →
  let total :=
    beginningBalance a
    + sumQc ((λ tx, if decide (type tx = normalBalance a)
                    then amount tx else - amount tx) <$> own) in
  let entries := B64.accountLedger Date_getTime txs accounts (acc_id a) in
  LedgerSummaryData.endingBalance (B64.summaryRow Date_getTime company txs a) = total
  ∧ entry_tx <$> entries ≡ₚ own
  ∧ default (beginningBalance a) (last (balance <$> entries)) = total
  ∧ (acc_id a ≠ "" → acc_id a ≠ "all" →
     B64.ledgerData Date_getTime company txs accounts (acc_id a)
     = LedgerEntries entries).
Proof.
  intros Hnd Ha own Hbb Hown Hbound total entries. subst entries.
  pose proof (find_account_unique _ _ Hnd Ha) as Hfind.
  rewrite (B64_summaryRow_whole Date_getTime company txs a Hbb Hown Hbound).
  rewrite (B64_accountLedger_whole Date_getTime txs accounts a Hfind Hbb Hown Hbound).
  unfold accountLedger. rewrite Hfind. repeat split.
  - apply summaryRow_endingBalance.
  - rewrite runningEntries_txs. apply sortByDate_Permutation.
  - rewrite runningEntries_last. unfold total. f_equal.
    apply sumQc_Permutation, fmap_Permutation, sortByDate_Permutation.
  - intros Hne Hall. unfold B64.ledgerData.
    rewrite !decide_False by done.
    rewrite (B64_accountLedger_whole Date_getTime txs accounts a Hfind Hbb Hown Hbound).
    unfold accountLedger. by rewrite Hfind.
Qed.

(** The cash account of the worked example: 1,000,000 + 500,000 -
    200,000 in both views. *)
Lemma C10_ledger_views_agree_witness :
  LedgerSummaryData.endingBalance
    (B64.summaryRow ex_getTime ex_company ex_transactions ex_kas)
  = Qc_of_Z 1000000 + sumQc [Qc_of_Z 500000; - Qc_of_Z 200000]
  ∧ default (Qc_of_Z 1000000)
      (last (balance <$> B64.accountLedger ex_getTime ex_transactions ex_accounts
                           "1-1130"))
    = Qc_of_Z 1000000 + sumQc [Qc_of_Z 500000; - Qc_of_Z 200000]
  ∧ B64.ledgerData ex_getTime ex_company ex_transactions ex_accounts "1-1130"
    = LedgerEntries (B64.accountLedger ex_getTime ex_transactions ex_accounts "1-1130").
Proof.
  assert (Hnd : NoDup (acc_id <$> ex_accounts)).
  { apply (bool_decide_unpack _). vm_compute. exact I. }
  assert (Hin : ex_kas ∈ ex_accounts) by (apply elem_of_cons; by left).
  destruct (C10_ledger_views_agree ex_getTime ex_company ex_transactions
              ex_accounts ex_kas Hnd Hin) as (H1 & _ & H3 & H4).
  - reflexivity.
  - apply (bool_decide_unpack _). vm_compute. exact I.
  - apply (bool_decide_unpack _). vm_compute. exact I.
  - split; [exact H1|]. split; [exact H3|].
    apply H4; discriminate.
Defined.

(** ** Sums of whole amounts *)

Lemma Forall_filter_keep {A} (P Q : A → Prop) `{∀ x, Decision (Q x)} (l : list A) :
  Forall P l → Forall P (filter Q l).
Proof.
  rewrite !Forall_forall. intros HP x Hx.
  apply list_elem_of_filter in Hx as [_ Hx]. by apply HP.
Qed.

Lemma whole_add (x y : Qc) : whole x → whole y → whole (x + y).
Proof.
  intros Hx Hy. rewrite (whole_Z x Hx), (whole_Z y Hy), <-Z2Qc_inj_add.
  apply whole_Qc_of_Z.
Qed.

Lemma Qnum_Qc_of_Z (n : Z) : Qnum (Qc_of_Z n) = n.
Proof. reflexivity. Qed.

(** A sum of whole numbers is whole and no larger than the sum of their
    magnitudes. *)
Lemma sumQc_whole (l : list Qc) :
  Forall whole l →
  ∃ n : Z, sumQc l = Qc_of_Z n ∧ (Z.abs n ≤ magnitudeSum l)%Z.
Proof.
  induction 1 as [|q l Hq _ (n & Hn & Hle)].
  - exists 0%Z. split; [exact (eq_sym Z2Qc_inj_0)|done].
  - exists (Qnum q + n)%Z. rewrite sumQc_cons, Hn, magnitudeSum_cons.
    split; [|lia]. rewrite (whole_Z q Hq) at 1. by rewrite Z2Qc_inj_add.
Qed.

(** Adding up whole numbers within the safe range, one after the other,
    rounds nowhere. *)
Lemma foldl_add_whole (l : list Qc) :
  Forall whole l →
  ∀ b : Z, (Z.abs b + magnitudeSum l ≤ 2 ^ 53)%Z →
  foldl B64.add (Qc_of_Z b) l = foldl Qcplus (Qc_of_Z b) l.
Proof.
  induction 1 as [|q l Hq _ IH]; intros b Hb; [done|].
  rewrite magnitudeSum_cons in Hb.
  pose proof (magnitudeSum_nonneg l) as Hnn.
  cbn [foldl]. rewrite (whole_Z q Hq).
  rewrite add_Z by lia. rewrite <-Z2Qc_inj_add. apply IH. lia.
Qed.

Lemma B64_reduce_sum_whole (l : list Qc) :
  Forall whole l → (magnitudeSum l ≤ 2 ^ 53)%Z →
  B64.reduce_sum l = sumQc l.
Proof.
  intros Hl Hb. rewrite <-reduce_sum_sumQc. unfold B64.reduce_sum, reduce_sum.
  rewrite <-Z2Qc_inj_0. apply foldl_add_whole; [exact Hl|]. cbn. lia.
Qed.

Lemma foldl_signed_whole (account : Account) (l : list Transaction) :
  Forall (λ tx, whole (amount tx)) l →
  ∀ b : Z, (Z.abs b + magnitudeSum (amount <$> l) ≤ 2 ^ 53)%Z →
  foldl (λ s tx, B64.add s (amountChange account tx)) (Qc_of_Z b) l
  = foldl (λ s tx, s + amountChange account tx) (Qc_of_Z b) l.
Proof.
  induction 1 as [|tx l Hw _ IH]; intros b Hb; [done|].
  rewrite fmap_cons, magnitudeSum_cons in Hb.
  pose proof (magnitudeSum_nonneg (amount <$> l)) as Hnn.
  destruct (amountChange_Z account tx Hw) as (n & Hn & Hnabs).
  cbn [foldl]. rewrite Hn.
  rewrite add_Z by lia. rewrite <-Z2Qc_inj_add. apply IH. lia.
Qed.

(** ** The balance accumulator in binary64 *)

Lemma B64_postTx_lookup accounts (m : gmap string Qc) tx k :
  B64.postTx accounts m tx !! k
  = match find_account accounts k with
    | Some account =>
        if decide (accountId tx = k)
        then Some (B64.add (default 0 (m !! k)) (amountChange account tx))
        else m !! k
    | None => m !! k
    end.
Proof.
  unfold B64.postTx. destruct (decide (accountId tx = k)) as [->|Hne].
  - destruct (find_account accounts k); [|done]. by rewrite lookup_insert_eq.
  - destruct (find_account accounts (accountId tx)).
    + rewrite lookup_insert_ne; [|done]. by destruct (find_account accounts k).
    + by destruct (find_account accounts k).
Qed.

Lemma B64_foldl_postTx_lookup accounts txs (m : gmap string Qc) k :
  foldl (B64.postTx accounts) m txs !! k
  = match find_account accounts k with
    | Some account =>
        match m !! k with
        | Some b =>
            Some (foldl (λ s tx, B64.add s (amountChange account tx)) b
                    (filter (λ tx, accountId tx = k) txs))
        | None =>
            match filter (λ tx, accountId tx = k) txs with
            | [] => None
            | _ =>
                Some (foldl (λ s tx, B64.add s (amountChange account tx)) 0
                        (filter (λ tx, accountId tx = k) txs))
            end
        end
    | None => m !! k
    end.
Proof.
  revert m. induction txs as [|tx txs IH]; intros m; simpl.
  - destruct (find_account accounts k); [|done]. by destruct (m !! k).
  - rewrite IH, B64_postTx_lookup.
    destruct (find_account accounts k) as [account|]; [|done].
    rewrite filter_cons. case_decide as Hk; [|done].
    simpl. by destruct (m !! k).
Qed.

(** In binary64 the balance under an id is the running sum, from zero
    and in the order of the list, of the sign-adjusted amounts of the
    transactions on that id. *)
Lemma B64_accountBalances_lookup accounts txs k :
  B64.accountBalances accounts txs !! k
  = (λ account, foldl (λ s tx, B64.add s (amountChange account tx)) 0
                  (filter (λ tx, accountId tx = k) txs))
      <$> find_account accounts k.
Proof.
  unfold B64.accountBalances. rewrite B64_foldl_postTx_lookup, initBalances_lookup.
  by destruct (find_account accounts k).
Qed.

Lemma foldl_signed_sum (account : Account) (l : list Transaction) (b : Qc) :
  foldl (λ s tx, s + amountChange account tx) b l
  = b + sumQc (amountChange account <$> l).
Proof.
  revert b. induction l as [|tx l IH]; intros b; cbn [foldl].
  - sum_norm. ring.
  - rewrite IH. sum_norm. ring.
Qed.

(** The balance of one account, when its own amounts are whole and
    within the safe range. *)
Lemma B64_accountBalances_whole_at accounts txs k :
  let own := filter (λ tx, accountId tx = k) txs in
  Forall (λ tx, whole (amount tx)) own →
  (magnitudeSum (amount <$> own) ≤ 2 ^ 53)%Z →
  B64.accountBalances accounts txs !! k = accountBalances accounts txs !! k.
Proof.
  intros own Hown Hb.
  rewrite B64_accountBalances_lookup, accountBalances_lookup. fold own.
  destruct (find_account accounts k) as [a|]; [|done]. cbn. f_equal.
  rewrite <-Z2Qc_inj_0, foldl_signed_whole by (done || (cbn; lia)).
  rewrite foldl_signed_sum, Z2Qc_inj_0. ring.
Qed.

Lemma B64_accountBalances_whole accounts txs :
  Forall (λ tx, whole (amount tx)) txs →
  (magnitudeSum (amount <$> txs) ≤ 2 ^ 53)%Z →
  B64.accountBalances accounts txs = accountBalances accounts txs.
Proof.
  intros Hw Hb. apply map_eq. intros k. apply B64_accountBalances_whole_at.
  - by apply Forall_filter_keep.
  - etrans; [apply magnitudeSum_filter|exact Hb].
Qed.

(** The bound on a list of amounts as an inequality between integers. *)
Lemma whole_bound_list (l : list Qc) (B : Z) :
  Forall whole l → sumQc (Qcabs <$> l) <= Qc_of_Z B → (magnitudeSum l ≤ B)%Z.
Proof.
  intros Hl. rewrite (sum_abs_whole l Hl). by rewrite <-Z2Qc_inj_le.
Qed.

(** ** Trial balance and balance accumulator on whole amounts *)

(** In binary64, for an account with a whole beginning balance and
    whole amounts within the safe range, the ending balance of the
    trial-balance row is the beginning balance plus the balance that
    [Reports] holds for the account, whatever the fiscal-year start. *)
Theorem trial_balance_vs_reports (Date_getTime : string → option Z)
    (company : Company) (accounts : list Account) (txs : list Transaction)
    (a : Account) :
  NoDup (acc_id <$> accounts) → a ∈ accounts →
  let own := filter (λ tx, accountId tx = acc_id a) txs in
  whole (beginningBalance a) → Forall (λ tx, whole (amount tx)) own →
  Qcabs (beginningBalance a) + sumQc (Qcabs <$> (amount <$> own)) <= maxSafe →
  LedgerSummaryData.endingBalance (B64.summaryRow Date_getTime company txs a)
  = beginningBalance a + or_zero (B64.accountBalances accounts txs !! acc_id a).
Proof.
  intros Hnd Ha own Hbb Hown Hbound. subst own.
  assert (Hz : (Z.abs (Qnum (beginningBalance a))
                + magnitudeSum (amount <$> filter (λ tx, accountId tx = acc_id a) txs)
                ≤ 2 ^ 53)%Z).
  { apply whole_bound; [exact Hbb| |exact Hbound]. by apply Forall_fmap. }
  rewrite (B64_summaryRow_whole Date_getTime company txs a Hbb Hown Hbound).
  rewrite (B64_accountBalances_whole_at accounts txs (acc_id a) Hown) by lia.
  rewrite summaryRow_endingBalance.
  by rewrite (accumulated_balance _ _ _ Hnd Ha).
Qed.

Lemma trial_balance_vs_reports_witness :
  LedgerSummaryData.endingBalance
    (B64.summaryRow ex_getTime ex_company ex_transactions ex_kas)
  = Qc_of_Z 1000000
    + or_zero (B64.accountBalances ex_accounts ex_transactions !! "1-1130").
Proof.
  apply (trial_balance_vs_reports ex_getTime ex_company ex_accounts
           ex_transactions ex_kas).
  - apply (bool_decide_unpack _). vm_compute. exact I.
  - apply elem_of_cons. by left.
  - reflexivity.
  - apply (bool_decide_unpack _). vm_compute. exact I.
  - apply (bool_decide_unpack _). vm_compute. exact I.
Defined.

(** In binary64, posting two batches of whole amounts within the safe
    range one after the other gives, for every account id, the sum of
    the balances of the two batches. *)
Theorem accountBalances_app (accounts : list Account)
    (txs1 txs2 : list Transaction) :
  Forall (λ tx, whole (amount tx)) (txs1 ++ txs2) →
  sumQc (Qcabs <$> (amount <$> txs1 ++ txs2)) <= maxSafe →
  B64.accountBalances accounts (txs1 ++ txs2)
  = union_with (λ x y, Some (x + y))
      (B64.accountBalances accounts txs1) (B64.accountBalances accounts txs2).
Proof.
  intros Hw Hb.
  assert (Hz : (magnitudeSum (amount <$> txs1 ++ txs2) ≤ 2 ^ 53)%Z).
  { apply whole_bound_list; [by apply Forall_fmap|exact Hb]. }
  rewrite fmap_app, magnitudeSum_app in Hz.
  pose proof (magnitudeSum_nonneg (amount <$> txs1)).
  pose proof (magnitudeSum_nonneg (amount <$> txs2)).
  apply Forall_app in Hw as [Hw1 Hw2].
  rewrite !B64_accountBalances_whole;
    [apply accountBalances_app_exact|done|lia|done|lia| |].
  - by apply Forall_app.
  - rewrite fmap_app, magnitudeSum_app. lia.
Qed.

Lemma accountBalances_app_witness :
  B64.accountBalances ex_accounts ex_transactions
  = union_with (λ x y, Some (x + y))
      (B64.accountBalances ex_accounts (take 2 ex_transactions))
      (B64.accountBalances ex_accounts (drop 2 ex_transactions)).
Proof.
  apply (accountBalances_app ex_accounts (take 2 ex_transactions)
           (drop 2 ex_transactions)).
  - apply (bool_decide_unpack _). vm_compute. exact I.
  - apply (bool_decide_unpack _). vm_compute. exact I.
Defined.

(** ** The dashboard on whole amounts *)

Lemma B64_foldl_dashboardStep accounts (l : list Transaction) :
  Forall (λ tx, whole (amount tx)) l →
  ∀ p b k S : Z,
  (Z.abs p ≤ S)%Z → (Z.abs b ≤ S)%Z → (Z.abs k ≤ S)%Z →
  (S + magnitudeSum (amount <$> l) ≤ 2 ^ 52)%Z →
  ∃ p' b' k' : Z,
    foldl (B64.dashboardStep accounts) (Qc_of_Z p, Qc_of_Z b, Qc_of_Z k) l
    = (Qc_of_Z p', Qc_of_Z b', Qc_of_Z k')
    ∧ foldl (dashboardStep accounts) (Qc_of_Z p, Qc_of_Z b, Qc_of_Z k) l
      = (Qc_of_Z p', Qc_of_Z b', Qc_of_Z k')
    ∧ (Z.abs p' ≤ S + magnitudeSum (amount <$> l))%Z
    ∧ (Z.abs b' ≤ S + magnitudeSum (amount <$> l))%Z
    ∧ (Z.abs k' ≤ S + magnitudeSum (amount <$> l))%Z.
Proof.
  assert (H5253 : (2 ^ 53 = 2 * 2 ^ 52)%Z) by reflexivity.
  induction 1 as [|tx l Hw _ IH]; intros p b k S Hp Hb Hk HS.
  - exists p, b, k. cbn [foldl]. repeat split; cbn; lia.
  - rewrite fmap_cons, magnitudeSum_cons in HS |- *.
    pose proof (magnitudeSum_nonneg (amount <$> l)) as Hnn.
    cbn [foldl]. unfold B64.dashboardStep at 2, dashboardStep at 2.
    destruct (find_account accounts (accountId tx)) as [a|].
    + destruct (amountChange_Z a tx Hw) as (n & Hn & Hnabs). rewrite Hn.
      set (m := Z.abs (Qnum (amount tx))) in *.
      rewrite !add_Z, !sub_Z by lia.
      rewrite <-!Z2Qc_inj_add, <-!Z2Qc_inj_sub.
      destruct (IH (if decide (category a = income) then p + n else p)%Z
                   (if decide (category a = expense) then b - n else b)%Z
                   (if decide (acc_id a = "1-1130") then k + n else k)%Z
                   (S + m)%Z)
        as (p' & b' & k' & H1 & H2 & H3 & H4 & H5);
        [case_decide; lia|case_decide; lia|case_decide; lia|lia|].
      exists p', b', k'. split; [|split; [|lia]].
      * rewrite <-H1. f_equal. repeat case_decide; reflexivity.
      * rewrite <-H2. f_equal. repeat case_decide; reflexivity.
    + destruct (IH p b k S) as (p' & b' & k' & H1 & H2 & H3 & H4 & H5);
        [lia|lia|lia|lia|].
      exists p', b', k'. split; [exact H1|]. split; [exact H2|]. lia.
Qed.

(** The dashboard figures of whole amounts that add up to at most
    [2^52] are computed without rounding. *)
Lemma B64_dashboard_whole accounts txs :
  Forall (λ tx, whole (amount tx)) txs →
  sumQc (Qcabs <$> (amount <$> txs)) <= Qc_of_Z (2 ^ 52) →
  B64.dashboard txs accounts = dashboard txs accounts.
Proof.
  intros Hw Hb.
  assert (Hz : (magnitudeSum (amount <$> txs) ≤ 2 ^ 52)%Z).
  { apply whole_bound_list; [by apply Forall_fmap|exact Hb]. }
  assert (H5253 : (2 ^ 53 = 2 * 2 ^ 52)%Z) by reflexivity.
  unfold B64.dashboard, dashboard. rewrite <-Z2Qc_inj_0.
  destruct (B64_foldl_dashboardStep accounts txs Hw 0 0 0 0)
    as (p' & b' & k' & -> & -> & H3 & H4 & H5); [done|done|done|lia|].
  f_equal. rewrite sub_Z by lia. by rewrite Z2Qc_inj_sub.
Qed.

(** In binary64, with unique ids and whole amounts that add up to at
    most [2^52], the dashboard's revenue total is the sum of the
    accumulated balances of the accounts of category income; its
    expense total is the negated sum of those of category expense
    ([totalBeban -= amount]); and its profit figure, revenue total
    minus expense total, is therefore the sum of the two sums. *)
Theorem dashboard_totals (accounts : list Account) (txs : list Transaction) :
  NoDup (acc_id <$> accounts) →
  Forall (λ tx, whole (amount tx)) txs →
  sumQc (Qcabs <$> (amount <$> txs)) <= Qc_of_Z (2 ^ 52) →
  let revenue := sumQc (accumulated txs <$> filter (λ a, category a = income) accounts) in
  let expenses := sumQc (accumulated txs <$> filter (λ a, category a = expense) accounts) in
  totalPendapatan (B64.dashboard txs accounts) = revenue
  ∧ totalBeban (B64.dashboard txs accounts) = - expenses
  ∧ labaRugi (B64.dashboard txs accounts) = revenue + expenses.
Proof.
  intros Hnd Hw Hb. rewrite (B64_dashboard_whole accounts txs Hw Hb).
  by apply dashboard_totals_exact.
Qed.

Lemma dashboard_totals_witness :
  totalPendapatan (B64.dashboard ex_transactions_balanced ex_accounts) = Qc_of_Z 800000
  ∧ totalBeban (B64.dashboard ex_transactions_balanced ex_accounts) = Qc_of_Z (-300000)
  ∧ labaRugi (B64.dashboard ex_transactions_balanced ex_accounts) = Qc_of_Z 1100000.
Proof.
  destruct (dashboard_totals ex_accounts ex_transactions_balanced)
    as (H1 & H2 & H3).
  - apply (bool_decide_unpack _). vm_compute. exact I.
  - apply (bool_decide_unpack _). vm_compute. exact I.
  - apply (bool_decide_unpack _). vm_compute. exact I.
  - cbv zeta in *. rewrite H1, H2, H3.
    repeat split; apply Qc_is_canon; vm_compute; reflexivity.
Defined.

(** ** The columns of the trial balance on whole amounts *)

Lemma B64_summaryData_whole (Date_getTime : string → option Z)
    (company : Company) (accounts : list Account) (txs : list Transaction) :
  Forall (λ tx, whole (amount tx)) txs →
  Forall (λ a, whole (beginningBalance a)
               ∧ Qcabs (beginningBalance a) + sumQc (Qcabs <$> (amount <$> txs))
                 <= maxSafe) accounts →
  B64.summaryData Date_getTime company txs accounts
  = summaryData Date_getTime company txs accounts.
Proof.
  intros Hw Hacc. unfold B64.summaryData, summaryData.
  apply Forall_fmap_ext_1, Forall_forall. intros a Ha.
  apply list_elem_of_filter in Ha as [_ Ha].
  rewrite Forall_forall in Hacc. destruct (Hacc a Ha) as [Hbb Hbound].
  assert (Hz : (Z.abs (Qnum (beginningBalance a)) + magnitudeSum (amount <$> txs)
                ≤ 2 ^ 53)%Z).
  { apply whole_bound; [exact Hbb| |exact Hbound]. by apply Forall_fmap. }
  pose proof (magnitudeSum_filter amount (λ tx, accountId tx = acc_id a) txs) as Hf.
  assert (Hown : Forall (λ tx, whole (amount tx))
                   (filter (λ tx, accountId tx = acc_id a) txs))
    by (by apply Forall_filter_keep).
  apply B64_summaryRow_whole; [exact Hbb|exact Hown|].
  rewrite (whole_abs _ Hbb), (sum_abs_whole (amount <$> _)) by (by apply Forall_fmap).
  rewrite <-Z2Qc_inj_add. unfold maxSafe. rewrite <-Z2Qc_inj_le. lia.
Qed.

(** The columns of the trial balance in binary64.  With unique ids,
    every transaction on a known account, and whole amounts and
    beginning balances within the safe range, the debit column of the
    all-accounts summary adds up to the debit amounts of all
    transactions not dated before the fiscal-year start, and the credit
    column to their credit amounts: when the movements of the period
    are in balance, so are the two columns. *)
Theorem trial_balance_columns (Date_getTime : string → option Z)
    (company : Company) (accounts : list Account) (txs : list Transaction) :
  NoDup (acc_id <$> accounts) →
  (∀ tx, tx ∈ txs → is_Some (find_account accounts (accountId tx))) →
  Forall (λ tx, whole (amount tx)) txs →
  Forall (λ a, whole (beginningBalance a)
               ∧ Qcabs (beginningBalance a) + sumQc (Qcabs <$> (amount <$> txs))
                 <= maxSafe) accounts →
  let startDate := Date_getTime (template (fiscalYearStart company) +:+ "T00:00:00") in
  let rows := B64.summaryData Date_getTime company txs accounts in
  sumQc (LedgerSummaryData.totalDebit <$> rows)
  = sumQc (amount <$> filter (λ tx, ¬ datedBefore Date_getTime startDate tx
                                    ∧ type tx = debit) txs)
  ∧ sumQc (LedgerSummaryData.totalCredit <$> rows)
    = sumQc (amount <$> filter (λ tx, ¬ datedBefore Date_getTime startDate tx
                                      ∧ type tx = credit) txs).
Proof.
  intros Hnd Hknown Hw Hacc startDate rows. subst rows.
  rewrite (B64_summaryData_whole Date_getTime company accounts txs Hw Hacc).
  by apply trial_balance_columns_exact.
Qed.

Lemma trial_balance_columns_witness :
  sumQc (LedgerSummaryData.totalDebit
           <$> B64.summaryData ex_getTime ex_company ex_transactions_balanced
                 ex_accounts)
  = sumQc (amount <$> filter (λ tx, ¬ datedBefore ex_getTime
                                        (ex_getTime "2025-01-01T00:00:00") tx
                                    ∧ type tx = debit) ex_transactions_balanced).
Proof.
  apply (trial_balance_columns ex_getTime ex_company ex_accounts
           ex_transactions_balanced).
  - apply (bool_decide_unpack _). vm_compute. exact I.
  - apply Forall_forall. apply (bool_decide_unpack _). vm_compute. exact I.
  - apply (bool_decide_unpack _). vm_compute. exact I.
  - apply (bool_decide_unpack _). vm_compute. exact I.
Defined.

(** ** The statements of [Reports] on whole amounts *)

Lemma magnitudeSum_split {A} (f : A → Qc) (P : A → Prop) `{∀ x, Decision (P x)}
    (l : list A) :
  magnitudeSum (f <$> l)
  = (magnitudeSum (f <$> filter P l) + magnitudeSum (f <$> filter (λ x, ¬ P x) l))%Z.
Proof.
  induction l as [|x l IH]; [done|]. rewrite !filter_cons, fmap_cons, magnitudeSum_cons.
  destruct (decide (P x)) as [Hx|Hx].
  - rewrite decide_False by tauto. rewrite fmap_cons, magnitudeSum_cons. lia.
  - rewrite decide_True by done. rewrite fmap_cons, magnitudeSum_cons. lia.
Qed.

(** With unique ids, figures that are each bounded by the magnitude of
    the transactions of one account are together bounded by the
    magnitude of all transactions. *)
Lemma magnitude_by_account (g : Account → Qc) (accounts : list Account) :
  NoDup (acc_id <$> accounts) →
  ∀ txs : list Transaction,
  (∀ a, a ∈ accounts →
     (Z.abs (Qnum (g a))
      ≤ magnitudeSum (amount <$> filter (λ tx, accountId tx = acc_id a) txs))%Z) →
  (magnitudeSum (g <$> accounts) ≤ magnitudeSum (amount <$> txs))%Z.
Proof.
  induction accounts as [|a l IH]; intros Hnd txs Hg.
  - cbn. apply magnitudeSum_nonneg.
  - rewrite fmap_cons in Hnd. inversion_clear Hnd as [|? ? Ha Hnd'].
    rewrite fmap_cons, magnitudeSum_cons.
    rewrite (magnitudeSum_split amount (λ tx, accountId tx = acc_id a) txs).
    pose proof (Hg a ltac:(by left)) as Hga.
    assert (Hrest : (magnitudeSum (g <$> l)
                     ≤ magnitudeSum
                         (amount <$> filter (λ tx, ¬ accountId tx = acc_id a) txs))%Z).
    { apply IH; [exact Hnd'|]. intros a' Ha'.
      rewrite list_filter_filter.
      etrans; [apply Hg; by right|].
      assert (Hne : acc_id a' ≠ acc_id a).
      { intros Heq. apply Ha. rewrite <-Heq. by apply list_elem_of_fmap_2. }
      apply Z.eq_le_incl. f_equal. f_equal. apply list_filter_iff.
      intros tx. split; [|tauto]. intros Htx. split; [exact Htx|]. congruence. }
    lia.
Qed.

Lemma NoDup_filter_ids (P : Account → Prop) `{∀ a, Decision (P a)}
    (accounts : list Account) :
  NoDup (acc_id <$> accounts) → NoDup (acc_id <$> filter P accounts).
Proof.
  intros Hnd. eapply sublist_NoDup; [exact Hnd|].
  apply fmap_sublist, sublist_filter.
Qed.

Lemma magnitudeSum_amountChange (a : Account) (l : list Transaction) :
  Forall (λ tx, whole (amount tx)) l →
  Forall whole (amountChange a <$> l)
  ∧ magnitudeSum (amountChange a <$> l) = magnitudeSum (amount <$> l).
Proof.
  induction 1 as [|tx l Hw _ [IH1 IH2]]; [by split|].
  destruct (amountChange_Z a tx Hw) as (n & Hn & Hnabs).
  rewrite !fmap_cons, !magnitudeSum_cons, IH2, Hn. split; [|cbn; lia].
  constructor; [apply whole_Qc_of_Z|exact IH1].
Qed.

(** The accumulated balance of an account with whole amounts is whole
    and bounded by the magnitude of its transactions. *)
Lemma accumulated_whole (txs : list Transaction) (a : Account) :
  Forall (λ tx, whole (amount tx)) txs →
  ∃ n : Z, accumulated txs a = Qc_of_Z n
    ∧ (Z.abs n ≤ magnitudeSum (amount <$> filter (λ tx, accountId tx = acc_id a) txs))%Z.
Proof.
  intros Hw. unfold accumulated.
  destruct (magnitudeSum_amountChange a
              (filter (λ tx, accountId tx = acc_id a) txs)) as [H1 H2].
  { by apply Forall_filter_keep. }
  destruct (sumQc_whole _ H1) as (n & Hn & Hle). exists n. split; [exact Hn|lia].
Qed.

Lemma B64_sectionTotal_whole (items : list ReportItem) :
  Forall whole (item_amount <$> items) →
  (magnitudeSum (item_amount <$> items) ≤ 2 ^ 53)%Z →
  B64.sectionTotal items = sectionTotal items.
Proof.
  intros Hw Hb. unfold B64.sectionTotal, sectionTotal.
  by rewrite B64_reduce_sum_whole, reduce_sum_sumQc.
Qed.

(** The items of a section before the roll-forward: whole, and together
    no larger than all the amounts. *)
Lemma sectionItems_plain_whole (P : Account → Prop) `{∀ a, Decision (P a)}
    (accounts : list Account) (txs : list Transaction) :
  NoDup (acc_id <$> accounts) → Forall (λ tx, whole (amount tx)) txs →
  let amounts :=
    item_amount <$> sectionItems (accountBalances accounts txs) P accounts in
  Forall whole amounts
  ∧ (magnitudeSum amounts ≤ magnitudeSum (amount <$> txs))%Z.
Proof.
  intros Hnd Hw amounts. subst amounts. rewrite sectionItems_plain by done. split.
  - apply Forall_fmap, Forall_forall. intros a _. cbn.
    destruct (accumulated_whole txs a Hw) as (n & -> & _). apply whole_Qc_of_Z.
  - apply magnitude_by_account; [by apply NoDup_filter_ids|].
    intros a _. destruct (accumulated_whole txs a Hw) as (n & -> & Hle). exact Hle.
Qed.

(** One figure of the list is raised by [c]. *)
Lemma magnitude_with_one (g : Account → Qc) (c : Z) (k : string)
    (accounts : list Account) :
  NoDup (acc_id <$> accounts) → Forall (λ a, whole (g a)) accounts →
  let g' := λ a, (if decide (acc_id a = k) then Qc_of_Z c else 0) + g a in
  Forall (λ a, whole (g' a)) accounts
  ∧ (magnitudeSum (g' <$> accounts) ≤ Z.abs c + magnitudeSum (g <$> accounts))%Z.
Proof.
  intros Hnd Hw g'. subst g'. cbn beta.
  induction accounts as [|a l IH]; [split; [constructor|cbn; lia]|].
  rewrite fmap_cons in Hnd. inversion_clear Hnd as [|? ? Ha Hnd'].
  apply Forall_cons in Hw as [Hwa Hwl].
  destruct (IH Hnd' Hwl) as [IH1 IH2].
  assert (Hhead : ∃ n : Z,
            (if decide (acc_id a = k) then Qc_of_Z c else 0) + g a = Qc_of_Z n
            ∧ n = ((if decide (acc_id a = k) then c else 0) + Qnum (g a))%Z).
  { exists ((if decide (acc_id a = k) then c else 0) + Qnum (g a))%Z.
    split; [|reflexivity]. rewrite (whole_Z _ Hwa) at 1.
    case_decide; [by rewrite Z2Qc_inj_add|]. by rewrite Qcplus_0_l. }
  destruct Hhead as (n & Hn & Hnz). split.
  - constructor; [|exact IH1]. cbn beta. rewrite Hn. apply whole_Qc_of_Z.
  - rewrite !fmap_cons, !magnitudeSum_cons. cbn beta. rewrite Hn, Qnum_Qc_of_Z.
    destruct (decide (acc_id a = k)) as [Hk|Hk]; [|lia].
    assert (Hsame : magnitudeSum
                      ((λ a0, (if decide (acc_id a0 = k) then Qc_of_Z c else 0) + g a0)
                         <$> l)
                    = magnitudeSum (g <$> l)).
    { f_equal. apply Forall_fmap_ext_1, Forall_forall. intros a' Ha'.
      rewrite decide_False; [ring|]. intros Heq. apply Ha.
      rewrite Hk, <-Heq. by apply list_elem_of_fmap_2. }
    rewrite Hsame. lia.
Qed.

(** The statements of whole amounts that add up to at most [2^51] are
    computed without rounding. *)
Lemma B64_reports_whole (accounts : list Account) (txs : list Transaction) :
  NoDup (acc_id <$> accounts) →
  Forall (λ tx, whole (amount tx)) txs →
  sumQc (Qcabs <$> (amount <$> txs)) <= Qc_of_Z (2 ^ 51) →
  B64.reports txs accounts = reports txs accounts.
Proof.
  intros Hnd Hw Hb.
  assert (Hz : (magnitudeSum (amount <$> txs) ≤ 2 ^ 51)%Z).
  { apply whole_bound_list; [by apply Forall_fmap|exact Hb]. }
  assert (H5153 : (2 ^ 53 = 4 * 2 ^ 51)%Z) by reflexivity.
  pose proof (magnitudeSum_nonneg (amount <$> txs)) as Hnn.
  set (M := magnitudeSum (amount <$> txs)) in *.
  unfold B64.reports, reports.
  rewrite (B64_accountBalances_whole accounts txs Hw) by (fold M; lia).
  set (bal := accountBalances accounts txs).
  (* net income *)
  destruct (sectionItems_plain_whole isRevenue accounts txs Hnd Hw) as [Hr1 Hr2].
  destruct (sectionItems_plain_whole isExpense accounts txs Hnd Hw) as [He1 He2].
  fold bal M in Hr1, Hr2, He1, He2.
  destruct (sumQc_whole _ Hr1) as (r & Hr & Hrle).
  destruct (sumQc_whole _ He1) as (e & He & Hele).
  assert (Hlaba : B64.computeLabaBersih (computePnl accounts bal)
                  = computeLabaBersih (computePnl accounts bal)).
  { unfold B64.computeLabaBersih, computeLabaBersih, computePnl.
    cbn [pendapatan beban].
    rewrite !B64_sectionTotal_whole by (done || lia).
    unfold sectionTotal. rewrite !reduce_sum_sumQc, Hr, He.
    rewrite sub_Z by lia. by rewrite Z2Qc_inj_sub. }
  rewrite Hlaba.
  assert (Hlz : computeLabaBersih (computePnl accounts bal) = Qc_of_Z (r - e)).
  { unfold computeLabaBersih, computePnl, sectionTotal. cbn [pendapatan beban].
    by rewrite !reduce_sum_sumQc, Hr, He, Z2Qc_inj_sub. }
  set (laba := computeLabaBersih (computePnl accounts bal)) in *.
  (* roll-forward *)
  assert (Hroll : B64.rollForward accounts laba bal = rollForward accounts laba bal).
  { unfold B64.rollForward, rollForward.
    destruct (find_account accounts labaDitahanId) as [re|] eqn:Hre; [|done].
    f_equal. unfold bal. rewrite accountBalances_lookup, Hre. cbn [fmap option_fmap option_map].
    rewrite or_zero_Some.
    destruct (magnitudeSum_amountChange re
                (filter (λ tx, accountId tx = labaDitahanId) txs)) as [H1 H2].
    { by apply Forall_filter_keep. }
    destruct (sumQc_whole _ H1) as (n & -> & Hle).
    pose proof (magnitudeSum_filter amount (λ tx, accountId tx = labaDitahanId) txs).
    rewrite Hlz. rewrite add_Z by (subst M; lia). by rewrite Z2Qc_inj_add. }
  rewrite Hroll.
  (* the three totals *)
  assert (Htot : ∀ (P : Account → Prop) `{∀ a, Decision (P a)},
            B64.sectionTotal (sectionItems (rollForward accounts laba bal) P accounts)
            = sectionTotal (sectionItems (rollForward accounts laba bal) P accounts)).
  { intros P HP. unfold bal.
    pose proof (sectionItems_rolled P accounts txs laba Hnd) as Hitems.
    destruct (magnitude_with_one (accumulated txs) (r - e) labaDitahanId
                (filter P accounts)) as [Hw1 Hw2].
    { by apply NoDup_filter_ids. }
    { apply Forall_forall. intros a _.
      destruct (accumulated_whole txs a Hw) as (n & -> & _). apply whole_Qc_of_Z. }
    cbn beta zeta in Hw1, Hw2. rewrite <-Hlz in Hw1, Hw2.
    assert (Hacc : (magnitudeSum (accumulated txs <$> filter P accounts) ≤ M)%Z).
    { apply magnitude_by_account; [by apply NoDup_filter_ids|].
      intros a _. destruct (accumulated_whole txs a Hw) as (n & -> & Hle). exact Hle. }
    apply B64_sectionTotal_whole; rewrite Hitems.
    - by apply Forall_fmap.
    - lia. }
  unfold computeBalanceSheet. cbn [aset liabilitas ekuitas].
  by rewrite !Htot.
Qed.

(** The accounting equation in binary64.  With unique account ids,
    every account on the normal side of its category, every transaction
    on a known account, the retained-earnings account 3-9999 among the
    equity accounts, and whole amounts that add up to at most [2^51],
    total assets are total liabilities plus total equity plus the
    amount by which all debits exceed all credits: for books in
    balance, assets equal liabilities plus equity. *)
Theorem balance_sheet_equation (accounts : list Account) (txs : list Transaction)
    (re : Account) :
  NoDup (acc_id <$> accounts) →
  (∀ a, a ∈ accounts → derivedNormalBalance a) →
  (∀ tx, tx ∈ txs → is_Some (find_account accounts (accountId tx))) →
  find_account accounts "3-9999" = Some re →
  category re = equity →
  Forall (λ tx, whole (amount tx)) txs →
  sumQc (Qcabs <$> (amount <$> txs)) <= Qc_of_Z (2 ^ 51) →
  let r := B64.reports txs accounts in
  totalAset r
  = totalLiabilitas r + totalEkuitas r
    + (sumQc (amount <$> filter (λ tx, type tx = debit) txs)
       - sumQc (amount <$> filter (λ tx, type tx = credit) txs)).
Proof.
  intros Hnd Hder Hknown Hre Hcat Hw Hb r. subst r.
  rewrite (B64_reports_whole accounts txs Hnd Hw Hb).
  by apply (balance_sheet_equation_exact accounts txs re).
Qed.

Lemma balance_sheet_equation_witness :
  totalAset (B64.reports ex_transactions_balanced ex_accounts)
  = totalLiabilitas (B64.reports ex_transactions_balanced ex_accounts)
    + totalEkuitas (B64.reports ex_transactions_balanced ex_accounts)
    + (sumQc (amount <$> filter (λ tx, type tx = debit) ex_transactions_balanced)
       - sumQc (amount <$> filter (λ tx, type tx = credit) ex_transactions_balanced)).
Proof.
  apply (balance_sheet_equation ex_accounts ex_transactions_balanced ex_labaDitahan).
  - apply (bool_decide_unpack _). vm_compute. exact I.
  - intros a Ha. vm_compute in Ha.
    repeat (apply elem_of_cons in Ha as [->|Ha]; [reflexivity|]).
    by apply elem_of_nil in Ha.
  - intros tx Htx. vm_compute in Htx.
    repeat (apply elem_of_cons in Htx as [->|Htx]; [vm_compute; eauto|]).
    by apply elem_of_nil in Htx.
  - reflexivity.
  - reflexivity.
  - apply (bool_decide_unpack _). vm_compute. exact I.
  - apply (bool_decide_unpack _). vm_compute. exact I.
Defined.

(** Without an account 3-9999 the net income reaches no equity item:
    under the same conditions total assets exceed total liabilities plus
    total equity by the net income (and by any excess of debits over
    credits). *)
Theorem balance_sheet_without_retained_earnings (accounts : list Account)
    (txs : list Transaction) :
  NoDup (acc_id <$> accounts) →
  (∀ a, a ∈ accounts → derivedNormalBalance a) →
  (∀ tx, tx ∈ txs → is_Some (find_account accounts (accountId tx))) →
  find_account accounts "3-9999" = None →
  Forall (λ tx, whole (amount tx)) txs →
  sumQc (Qcabs <$> (amount <$> txs)) <= Qc_of_Z (2 ^ 51) →
  let r := B64.reports txs accounts in
  totalAset r
  = totalLiabilitas r + totalEkuitas r + labaBersih r
    + (sumQc (amount <$> filter (λ tx, type tx = debit) txs)
       - sumQc (amount <$> filter (λ tx, type tx = credit) txs)).
Proof.
  intros Hnd Hder Hknown Hre Hw Hb r. subst r.
  rewrite (B64_reports_whole accounts txs Hnd Hw Hb).
  by apply (balance_sheet_without_retained_earnings_exact accounts txs).
Qed.

Lemma balance_sheet_without_retained_earnings_witness :
  totalAset (B64.reports ex_transactions_plain ex_accounts_plain)
  = totalLiabilitas (B64.reports ex_transactions_plain ex_accounts_plain)
    + totalEkuitas (B64.reports ex_transactions_plain ex_accounts_plain)
    + labaBersih (B64.reports ex_transactions_plain ex_accounts_plain)
    + (sumQc (amount <$> filter (λ tx, type tx = debit) ex_transactions_plain)
       - sumQc (amount <$> filter (λ tx, type tx = credit) ex_transactions_plain)).
Proof.
  apply (balance_sheet_without_retained_earnings ex_accounts_plain
           ex_transactions_plain).
  - apply (bool_decide_unpack _). vm_compute. exact I.
  - intros a Ha. vm_compute in Ha.
    repeat (apply elem_of_cons in Ha as [->|Ha]; [reflexivity|]).
    by apply elem_of_nil in Ha.
  - intros tx Htx. vm_compute in Htx.
    repeat (apply elem_of_cons in Htx as [->|Htx]; [vm_compute; eauto|]).
    by apply elem_of_nil in Htx.
  - reflexivity.
  - apply (bool_decide_unpack _). vm_compute. exact I.
  - apply (bool_decide_unpack _). vm_compute. exact I.
Defined.

(** In binary64, with unique ids and whole amounts that add up to at
    most [2^51], the order of the transactions does not matter to the
    statements. *)
Theorem reports_order_irrelevant (accounts : list Account)
    (txs txs' : list Transaction) :
  txs ≡ₚ txs' →
  NoDup (acc_id <$> accounts) →
  Forall (λ tx, whole (amount tx)) txs →
  sumQc (Qcabs <$> (amount <$> txs)) <= Qc_of_Z (2 ^ 51) →
  B64.reports txs accounts = B64.reports txs' accounts.
Proof.
  intros Hp Hnd Hw Hb.
  rewrite (B64_reports_whole accounts txs Hnd Hw Hb).
  rewrite (B64_reports_whole accounts txs' Hnd).
  - by apply reports_order_irrelevant_exact.
  - by rewrite <-Hp.
  - rewrite <-(sumQc_Permutation (Qcabs <$> (amount <$> txs))); [exact Hb|].
    by rewrite Hp.
Qed.

Lemma reports_order_irrelevant_witness :
  B64.reports ex_transactions ex_accounts
  = B64.reports (reverse ex_transactions) ex_accounts.
Proof.
  apply reports_order_irrelevant.
  - symmetry. apply reverse_Permutation.
  - apply (bool_decide_unpack _). vm_compute. exact I.
  - apply (bool_decide_unpack _). vm_compute. exact I.
  - apply (bool_decide_unpack _). vm_compute. exact I.
Defined.

(** ** The manual form on whole amounts *)

(** The binary64 number nearest to 0.01 lies strictly between 0 and 1. *)
Lemma tolerance_between : 0 < B64.tolerance ∧ B64.tolerance < 1.
Proof. split; vm_compute; reflexivity. Qed.

Lemma tolerance_whole (n : Z) : B64.tolerance < Qc_of_Z (Z.abs n) ↔ n ≠ 0%Z.
Proof.
  destruct tolerance_between as [H0 H1]. split.
  - intros Hlt ->. change (Qc_of_Z (Z.abs 0)) with (Qc_of_Z 0) in Hlt.
    rewrite Z2Qc_inj_0 in Hlt. exact (Qclt_not_le _ _ Hlt (Qclt_le_weak _ _ H0)).
  - intros Hn. eapply Qclt_le_trans; [exact H1|].
    rewrite <-Z2Qc_inj_1. apply (proj1 (Z2Qc_inj_le _ _)). lia.
Qed.

Lemma B64_entriesTotal_whole (t : TransactionType) (es : list Entry) :
  Forall (λ e, whole (or_zero (e_amount e))) es →
  (magnitudeSum ((λ e, or_zero (e_amount e)) <$> es) ≤ 2 ^ 53)%Z →
  B64.entriesTotal t es = entriesTotal t es
  ∧ ∃ n : Z, entriesTotal t es = Qc_of_Z n
      ∧ (Z.abs n ≤ magnitudeSum ((λ e, or_zero (e_amount e))
                                    <$> filter (λ e, e_type e = Some t) es))%Z.
Proof.
  intros Hw Hb. unfold B64.entriesTotal, entriesTotal.
  pose proof (magnitudeSum_filter (λ e, or_zero (e_amount e))
                (λ e, e_type e = Some t) es) as Hf.
  assert (Hwf : Forall whole ((λ e, or_zero (e_amount e))
                                <$> filter (λ e, e_type e = Some t) es)).
  { apply Forall_fmap. by apply Forall_filter_keep. }
  rewrite B64_reduce_sum_whole by (done || lia). rewrite reduce_sum_sumQc.
  split; [done|]. destruct (sumQc_whole _ Hwf) as (n & Hn & Hle). eauto.
Qed.

(** In binary64, on rows with whole amounts within the safe range the
    tolerance of the manual form plays no part: the form saves exactly
    when the debit amounts and the credit amounts add up to the same
    sum and that sum is not zero, and rejects otherwise. *)
Theorem manual_form_whole (st : ModalState) :
  Forall (λ e, whole (or_zero (e_amount e))) (entries st) →
  sumQc (Qcabs <$> ((λ e, or_zero (e_amount e)) <$> entries st)) <= maxSafe →
  let totalDebit := entriesTotal debit (entries st) in
  let totalCredit := entriesTotal credit (entries st) in
  (totalDebit = totalCredit ∧ totalDebit ≠ 0 →
   B64.handleSubmit true st
   = SubmitSave (completeEntry (commonDesc st) (commonDate st) <$> entries st) None)
  ∧ (¬ (totalDebit = totalCredit ∧ totalDebit ≠ 0) →
     B64.handleSubmit true st = SubmitError unbalancedMsg).
Proof.
  intros Hw Hb totalDebit totalCredit.
  assert (Hz : (magnitudeSum ((λ e, or_zero (e_amount e)) <$> entries st) ≤ 2 ^ 53)%Z).
  { apply whole_bound_list; [by apply Forall_fmap|exact Hb]. }
  destruct (B64_entriesTotal_whole debit (entries st) Hw Hz) as (HD & d & Hd & Hdle).
  destruct (B64_entriesTotal_whole credit (entries st) Hw Hz) as (HC & c & Hc & Hcle).
  pose proof (magnitudeSum_split (λ e, or_zero (e_amount e))
                (λ e, e_type e = Some debit) (entries st)) as Hsplit.
  assert (Hcred : (magnitudeSum ((λ e, or_zero (e_amount e))
                     <$> filter (λ e, e_type e = Some credit) (entries st))
                   ≤ magnitudeSum ((λ e, or_zero (e_amount e))
                     <$> filter (λ e, ¬ e_type e = Some debit) (entries st)))%Z).
  { rewrite <-(list_filter_filter_l (λ e, e_type e = Some credit)
                 (λ e, ¬ e_type e = Some debit)).
    - apply magnitudeSum_filter.
    - intros e He Hdeb. rewrite He in Hdeb. discriminate. }
  subst totalDebit totalCredit. unfold B64.handleSubmit. rewrite HD, HC, Hd, Hc.
  cbn beta in Hsplit.
  rewrite sub_Z by lia. rewrite Qcabs_Qc_of_Z.
  assert (Hd0 : Qc_of_Z d = 0 ↔ d = 0%Z).
  { rewrite <-Z2Qc_inj_0. apply Z2Qc_inj_iff. }
  assert (Hdc : Qc_of_Z d = Qc_of_Z c ↔ d = c) by apply Z2Qc_inj_iff.
  pose proof (tolerance_whole (d - c)) as Htol.
  split.
  - intros [Heq Hne]. rewrite decide_False; [done|].
    intros [Hlt|Hzero]; [|tauto]. apply Htol in Hlt. apply Hdc in Heq. lia.
  - intros Hno. rewrite decide_True; [done|].
    destruct (decide (d = c)) as [->|Hne].
    + right. apply Hd0. destruct (decide (c = 0%Z)) as [->|Hc0]; [done|].
      exfalso. apply Hno. split; [done|]. intros H0. by apply Hc0, Hd0.
    + left. apply Htol. lia.
Qed.

(** A journal of 2,000,000 against 2,000,000 is saved; one cent short
    on the credit side is not a whole amount and is outside the
    statement. *)
Lemma manual_form_whole_witness :
  B64.handleSubmit true
    (ex_state [ex_entry "1-1130" debit 2000000; ex_entry "3-1000" credit 2000000])
  = SubmitSave (completeEntry "Setoran modal" "2025-01-05"
                  <$> [ex_entry "1-1130" debit 2000000;
                       ex_entry "3-1000" credit 2000000]) None.
Proof.
  destruct (manual_form_whole
              (ex_state [ex_entry "1-1130" debit 2000000;
                         ex_entry "3-1000" credit 2000000])) as [H1 _].
  - apply (bool_decide_unpack _). vm_compute. exact I.
  - apply (bool_decide_unpack _). vm_compute. exact I.
  - apply H1. split.
    + apply Qc_is_canon. vm_compute. reflexivity.
    + vm_compute. discriminate.
Defined.
